(** * Multi-agent task breakdown: the sequential coordinator, its memory
      manager and its compression nodes

    A shallow embedding of the Python of the LangGraph specification of the
    repository (state schema, [AdvancedMemoryManager], the agent nodes, the
    compression nodes and the workflow graphs), with the external
    capabilities (language model, embeddings, clock) kept abstract. *)

From Stdlib Require Import String Ascii List ZArith Lia Bool PeanoNat DecimalString
  DecimalNat.
Import ListNotations.
Open Scope string_scope.

(** ** Python values and exceptions *)

(** The exceptions a run can raise.  [ModelError] and [EmbeddingError] come
    from the capability boundary. *)
Inductive exn : Type :=
| IndexError
| ValueError
| ModelError
| EmbeddingError
| PlanningError
| AggregationError
| GraphRecursionError.

(** Outcome of a Python expression: a value, or a raised exception. *)
Inductive result (A : Type) : Type :=
| Ok (a : A)
| Raise (e : exn).
Arguments Ok {A} a.
Arguments Raise {A} e.

(** The newline of the f-strings and templates. *)
Definition nl : string := String (ascii_of_nat 10) EmptyString.

(** [len(s)] for a string. *)
Definition len (s : string) : nat := String.length s.

(** [s in t] for strings: [s] occurs in [t]. *)
Definition contains (t s : string) : Prop :=
  exists pre post, t = pre ++ s ++ post.

(** Value of one decimal digit. *)
Definition digit_of (c : ascii) : option Z :=
  let n := nat_of_ascii c in
  if (48 <=? n)%nat && (n <=? 57)%nat then Some (Z.of_nat (n - 48)) else None.

Fixpoint int_digits (acc : Z) (s : string) : option Z :=
  match s with
  | EmptyString => Some acc
  | String c s' =>
      match digit_of c with
      | Some d => int_digits (10 * acc + d) s'
      | None => None
      end
  end.

(** [int(s)] on a string of ASCII decimal digits; anything else raises
    [ValueError].  (Signs, blanks and underscores, which Python also takes,
    never occur in an agent id.) *)
Definition int (s : string) : result Z :=
  match s with
  | EmptyString => Raise ValueError
  | _ => match int_digits 0 s with
         | Some z => Ok z
         | None => Raise ValueError
         end
  end.

(** [l[i]] on a Python list: a negative index counts from the end, an index
    out of range raises [IndexError]. *)
Definition getitem {A : Type} (l : list A) (i : Z) : result A :=
  let n := Z.of_nat (List.length l) in
  let j := if (i <? 0)%Z then (i + n)%Z else i in
  if (0 <=? j)%Z && (j <? n)%Z then
    match nth_error l (Z.to_nat j) with
    | Some a => Ok a
    | None => Raise IndexError
    end
  else Raise IndexError.

(** A Python [dict] with string keys: insertion-ordered, keys unique. *)
Definition dict (V : Type) : Type := list (string * V).

Fixpoint dict_get {V : Type} (d : dict V) (k : string) : option V :=
  match d with
  | [] => None
  | (k', v) :: d' => if String.eqb k' k then Some v else dict_get d' k
  end.

(** [d[k] = v]: an existing key keeps its place, a new key goes last. *)
Fixpoint dict_set {V : Type} (d : dict V) (k : string) (v : V) : dict V :=
  match d with
  | [] => [(k, v)]
  | (k', v') :: d' =>
      if String.eqb k' k then (k', v) :: d' else (k', v') :: dict_set d' k v
  end.

Definition keys {V : Type} (d : dict V) : list string := map fst d.

(** Values stored in the dicts handed to the memory manager; [T] is the
    type of clock readings. *)
Inductive value (T : Type) : Type :=
| VStr (s : string)
| VTime (t : T).
Arguments VStr {T} s.
Arguments VTime {T} t.

(** One entry of the episodic memory: the dict built by [add_episode]. *)
Module Episode.
Record t (T V : Type) : Type := {
  id : nat;
  timestamp : T;
  data : dict (value T);
  embeddings : V
}.
Arguments id {T V} _.
Arguments timestamp {T V} _.
Arguments data {T V} _.
Arguments embeddings {T V} _.
End Episode.

(** ** External capabilities

    The language model, the embedding model, the clock and the vector
    stores are black boxes.  [Ext] is their hidden state, so that two calls
    with the same argument may answer differently; a call may raise. *)
Class Capabilities : Type := {
  Ext : Type;
  Time : Type;
  Vector : Type;
  (** [llm] on a rendered prompt. *)
  llm : string -> Ext -> result string * Ext;
  (** [embeddings.embed_query]. *)
  embed_query : string -> Ext -> result Vector * Ext;
  (** [time.time()]. *)
  time_time : Ext -> Time * Ext;
  (** [str(d)] of a dict. *)
  str : dict (value Time) -> string;
  (** The similarity search left open in [retrieve_relevant_episodes]. *)
  similarity_search :
    list (Episode.t Time Vector) -> Vector -> nat -> list (Episode.t Time Vector);
  (** [long_term_memory.save_context(inputs, outputs)]. *)
  save_context : string -> string -> Ext -> result unit * Ext;
  (** [long_term_memory.load_memory_variables(...)["relevant_context"]]. *)
  load_memory_variables : string -> Ext -> result string * Ext
}.

Definition episode `{Capabilities} : Type := Episode.t Time Vector.
Definition episode_data `{Capabilities} : Type := dict (value Time).

(** ** The memory manager *)
Module AdvancedMemoryManager.
Section Manager.
Context `{caps : Capabilities}.

(** The manager object: [self.episodic_memory] and [self.semantic_memory]
    (the store handles play no part here). *)
Record t : Type := {
  episodic_memory : list episode;
  semantic_memory : dict episode_data
}.

(** [__init__]. *)
Definition init : t :=
  {| episodic_memory := []; semantic_memory := [] |}.

(** [add_episode]: the dict literal is evaluated left to right (length,
    clock, embedding), then the episode is appended.  When the embedding
    call raises, nothing is appended. *)
Definition add_episode (self : t) (episode_data : episode_data) (x : Ext)
  : result t * Ext :=
  let n := List.length (episodic_memory self) in
  let (now, x1) := time_time x in
  let (emb, x2) := embed_query (str episode_data) x1 in
  match emb with
  | Raise e => (Raise e, x2)
  | Ok v =>
      let episode :=
        {| Episode.id := n; Episode.timestamp := now;
           Episode.data := episode_data; Episode.embeddings := v |} in
      (Ok {| episodic_memory := episodic_memory self ++ [episode];
             semantic_memory := semantic_memory self |}, x2)
  end.

(** [retrieve_relevant_episodes(query, k=5)]: the query is embedded, then
    the similarity search picks the episodes. *)
Definition retrieve_relevant_episodes (self : t) (query : string) (k : nat)
           (x : Ext) : result (list episode) * Ext :=
  let (emb, x1) := embed_query query x in
  match emb with
  | Raise e => (Raise e, x1)
  | Ok query_embedding =>
      (Ok (similarity_search (episodic_memory self) query_embedding k), x1)
  end.

(** [update_semantic_memory]: the body is [pass]. *)
Definition update_semantic_memory (self : t) (knowledge : episode_data) : t :=
  self.


(** Ids are the positions: 0, 1, 2, ... *)
Definition ids_consecutive (self : t) : Prop :=
  map Episode.id (episodic_memory self)
  = seq 0 (List.length (episodic_memory self)).

(** The managers that [__init__] and the methods above can produce. *)
Inductive reachable : t -> Prop :=
| reachable_init : reachable init
| reachable_add_episode (self : t) (d : episode_data) (x : Ext)
                        (self' : t) (x' : Ext) :
    reachable self ->
    add_episode self d x = (Ok self', x') ->
    reachable self'
| reachable_update_semantic_memory (self : t) (knowledge : episode_data) :
    reachable self ->
    reachable (update_semantic_memory self knowledge).

End Manager.
End AdvancedMemoryManager.

(** ** State schema, world and effects *)

(** How a node body ends: it returns, it raises, or it gives the subtask up
    after its retries (the escalation of the recovery strategy). *)
Inductive outcome (A : Type) : Type :=
| Returns (a : A)
| Raises (e : exn)
| Escalates (subtask_id : string).
Arguments Returns {A} a.
Arguments Raises {A} e.
Arguments Escalates {A} subtask_id.

Definition outcome_of {A : Type} (r : result A) : outcome A :=
  match r with
  | Ok a => Returns a
  | Raise e => Raises e
  end.

Section State.
Context {caps : Capabilities}.

(** [AgentState], the TypedDict threaded through the graph. *)
Record AgentState : Type := {
  messages : list string;
  task : string;
  subtasks : list string;
  sub_results : dict string;
  final_result : string;
  context : string;
  compressed_context : string;
  step : string;
  episodic_memory : list episode;
  semantic_memory : dict episode_data;
  memory_metadata : episode_data
}.

(** [state["subtasks"] = v]. *)
Definition set_subtasks (st : AgentState) (v : list string) : AgentState :=
  {| messages := messages st; task := task st; subtasks := v;
     sub_results := sub_results st; final_result := final_result st;
     context := context st; compressed_context := compressed_context st;
     step := step st; episodic_memory := episodic_memory st;
     semantic_memory := semantic_memory st;
     memory_metadata := memory_metadata st |}.

(** [state["sub_results"][k] = v]. *)
Definition set_sub_result (st : AgentState) (k v : string) : AgentState :=
  {| messages := messages st; task := task st; subtasks := subtasks st;
     sub_results := dict_set (sub_results st) k v;
     final_result := final_result st;
     context := context st; compressed_context := compressed_context st;
     step := step st; episodic_memory := episodic_memory st;
     semantic_memory := semantic_memory st;
     memory_metadata := memory_metadata st |}.

(** [state["context"] = v]. *)
Definition set_context (st : AgentState) (v : string) : AgentState :=
  {| messages := messages st; task := task st; subtasks := subtasks st;
     sub_results := sub_results st; final_result := final_result st;
     context := v; compressed_context := compressed_context st;
     step := step st; episodic_memory := episodic_memory st;
     semantic_memory := semantic_memory st;
     memory_metadata := memory_metadata st |}.

(** [state["compressed_context"] = v]. *)
Definition set_compressed_context (st : AgentState) (v : string) : AgentState :=
  {| messages := messages st; task := task st; subtasks := subtasks st;
     sub_results := sub_results st; final_result := final_result st;
     context := context st; compressed_context := v;
     step := step st; episodic_memory := episodic_memory st;
     semantic_memory := semantic_memory st;
     memory_metadata := memory_metadata st |}.

(** [state["final_result"] = v]. *)
Definition set_final_result (st : AgentState) (v : string) : AgentState :=
  {| messages := messages st; task := task st; subtasks := subtasks st;
     sub_results := sub_results st; final_result := v;
     context := context st; compressed_context := compressed_context st;
     step := step st; episodic_memory := episodic_memory st;
     semantic_memory := semantic_memory st;
     memory_metadata := memory_metadata st |}.

(** The state of the usage example, for a given task. *)
Definition initial_state (task0 : string) : AgentState :=
  {| messages := []; task := task0; subtasks := []; sub_results := [];
     final_result := ""; context := ""; compressed_context := "";
     step := "start"; episodic_memory := []; semantic_memory := [];
     memory_metadata := [] |}.

(** One call of the language model: the rendered prompt and the answer. *)
Record LlmCall : Type := {
  call_prompt : string;
  call_reply : result string
}.

(** Everything outside the state dict: the capabilities' hidden state,
    the global [memory_manager], and the record of the calls made to the
    language model so far. *)
Record World : Type := {
  ext : Ext;
  memory_manager : AdvancedMemoryManager.t;
  llm_calls : list LlmCall
}.

Definition set_ext (w : World) (x : Ext) : World :=
  {| ext := x; memory_manager := memory_manager w; llm_calls := llm_calls w |}.

Definition set_memory_manager (w : World) (m : AdvancedMemoryManager.t) : World :=
  {| ext := ext w; memory_manager := m; llm_calls := llm_calls w |}.

(** Python code with effects: it reads and writes the world; what was
    written before a raise stays written. *)
Definition M (A : Type) : Type := World -> outcome A * World.

Definition ret {A : Type} (a : A) : M A := fun w => (Returns a, w).

Definition raise {A : Type} (e : exn) : M A := fun w => (Raises e, w).

Definition bind {A B : Type} (m : M A) (k : A -> M B) : M B :=
  fun w =>
    match m w with
    | (Returns a, w') => k a w'
    | (Raises e, w') => (Raises e, w')
    | (Escalates i, w') => (Escalates i, w')
    end.

(** A pure expression that may raise. *)
Definition pure {A : Type} (r : result A) : M A := fun w => (outcome_of r, w).

(** A call of a capability other than the language model. *)
Definition call {A : Type} (f : Ext -> result A * Ext) : M A :=
  fun w => let (r, x) := f (ext w) in (outcome_of r, set_ext w x).

(** One call of the language model on a rendered prompt, recorded. *)
Definition llm_call (prompt : string) (w : World) : result string * World :=
  let (r, x) := llm prompt (ext w) in
  (r, {| ext := x; memory_manager := memory_manager w;
         llm_calls := llm_calls w
                      ++ [{| call_prompt := prompt; call_reply := r |}] |}).

(** [LLMChain(llm, prompt).run(...)] on the rendered prompt. *)
Definition chain_run (prompt : string) : M string :=
  fun w => let (r, w') := llm_call prompt w in (outcome_of r, w').

(** [memory_manager.add_episode(episode_data)]. *)
Definition memory_manager_add_episode (d : episode_data) : M unit :=
  fun w =>
    let (r, x) := AdvancedMemoryManager.add_episode (memory_manager w) d (ext w) in
    match r with
    | Ok m => (Returns tt, set_memory_manager (set_ext w x) m)
    | Raise e => (Raises e, set_ext w x)
    end.

(** [memory_manager.retrieve_relevant_episodes(query, k)]. *)
Definition memory_manager_retrieve_relevant_episodes (query : string) (k : nat)
  : M (list episode) :=
  fun w =>
    let (r, x) :=
      AdvancedMemoryManager.retrieve_relevant_episodes (memory_manager w) query k (ext w) in
    (outcome_of r, set_ext w x).

(** [memory_manager.update_semantic_memory(knowledge)]. *)
Definition memory_manager_update_semantic_memory (knowledge : episode_data)
  : M unit :=
  fun w =>
    (Returns tt,
     set_memory_manager w
       (AdvancedMemoryManager.update_semantic_memory (memory_manager w) knowledge)).

End State.

Declare Scope py_scope.
Notation "x <- m ;; k" := (bind m (fun x => k))
  (at level 61, m at next level, right associativity) : py_scope.
Notation "m ;;; k" := (bind m (fun _ => k))
  (at level 61, right associativity) : py_scope.
Open Scope py_scope.

(** ** Functions of the repository that the source names but does not
       define; they are taken as parameters. *)
Class Helpers {caps : Capabilities} : Type := {
  (** The planner behind [break_task_node]. *)
  plan : string -> Ext -> result (list string) * Ext;
  (** The synthesis behind the merger nodes. *)
  aggregate : dict string -> Ext -> result string * Ext;
  format_episodes : list episode -> string;
  get_semantic_context :
    AdvancedMemoryManager.t -> string -> Ext -> result string * Ext;
  analyze_episodic_patterns : list episode -> Ext -> result episode_data * Ext;
  initialize_memory :
    AgentState -> AdvancedMemoryManager.t -> Ext
    -> result (AgentState * AdvancedMemoryManager.t) * Ext;
  (** The prompt of a retry, from the prompt and the retry count. *)
  enhance_prompt : string -> nat -> string
}.

(** ** The nodes *)
Section Nodes.
Context {caps : Capabilities} {helpers : Helpers}.

(** Indentation of the template lines in the source. *)
Definition i4 : string := "    ".
Definition i12 : string := "            ".

(** [time.time()] as an effect. *)
Definition now : M Time :=
  fun w => let (t, x) := time_time (ext w) in (Returns t, set_ext w x).

(** [state["subtasks"][int(agent_id)-1]]. *)
Definition subtask_of (st : AgentState) (agent_id : string) : result string :=
  match int agent_id with
  | Ok i => getitem (subtasks st) (i - 1)
  | Raise e => Raise e
  end.

(** *** Pattern 1 *)

(** [f"You are Sub-agent {agent_id}. Complete: {{task}}"], rendered. *)
Definition sub_agent_prompt (agent_id task0 : string) : string :=
  "You are Sub-agent " ++ agent_id ++ ". Complete: " ++ task0.

Definition sub_agent_node (st : AgentState) (agent_id : string) : M AgentState :=
  task0 <- pure (subtask_of st agent_id) ;;
  result <- chain_run (sub_agent_prompt agent_id task0) ;;
  ret (set_sub_result st agent_id result).

(** *** Pattern 3 *)

(** The template of [sequential_agent_node], rendered. *)
Definition sequential_prompt (agent_id context0 task0 : string) : string :=
  nl ++ i12 ++ "You are Sub-agent " ++ agent_id ++ "." ++ nl
  ++ i12 ++ nl
  ++ i12 ++ "Previous context: " ++ context0 ++ nl
  ++ i12 ++ "Current task: " ++ task0 ++ nl
  ++ i12 ++ nl
  ++ i12 ++ "Build upon previous work and complete your task." ++ nl
  ++ i12.

(** [f"\n[Agent {agent_id}]: {result}"]. *)
Definition agent_line (agent_id result0 : string) : string :=
  nl ++ "[Agent " ++ agent_id ++ "]: " ++ result0.

Definition sequential_agent_node (st : AgentState) (agent_id : string)
  : M AgentState :=
  task0 <- pure (subtask_of st agent_id) ;;
  result <- chain_run (sequential_prompt agent_id (context st) task0) ;;
  let st := set_sub_result st agent_id result in
  let st := set_context st (context st ++ agent_line agent_id result) in
  ret st.

(** *** Pattern 3, enhanced *)

(** The [context] f-string of [enhanced_sequential_agent_node]. *)
Definition enhanced_context (previous episodes semantic : string) : string :=
  nl ++ i4 ++ "Previous work: " ++ previous ++ nl
  ++ i4 ++ "Relevant episodes: " ++ episodes ++ nl
  ++ i4 ++ "Semantic knowledge: " ++ semantic ++ nl
  ++ i4.

Definition enhanced_prompt (agent_id context0 task0 : string) : string :=
  nl ++ i12 ++ "You are Sub-agent " ++ agent_id ++ "." ++ nl
  ++ i12 ++ nl
  ++ i12 ++ "Context: " ++ context0 ++ nl
  ++ i12 ++ "Current task: " ++ task0 ++ nl
  ++ i12 ++ nl
  ++ i12 ++ "Build upon previous work and complete your task." ++ nl
  ++ i12.

Definition enhanced_sequential_agent_node (st : AgentState) (agent_id : string)
  : M AgentState :=
  query <- pure (subtask_of st agent_id) ;;
  relevant_episodes <- memory_manager_retrieve_relevant_episodes query 5 ;;
  query <- pure (subtask_of st agent_id) ;;
  semantic_context <-
    (fun w => call (get_semantic_context (memory_manager w) query) w) ;;
  let context0 :=
    enhanced_context (context st) (format_episodes relevant_episodes)
                     semantic_context in
  task0 <- pure (subtask_of st agent_id) ;;
  result <- chain_run (enhanced_prompt agent_id context0 task0) ;;
  task1 <- pure (subtask_of st agent_id) ;;
  let episode_data :=
    [("agent_id", VStr agent_id); ("task", VStr task1);
     ("result", VStr result); ("context", VStr context0)] in
  memory_manager_add_episode episode_data ;;;
  let st := set_sub_result st agent_id result in
  let st := set_context st (context st ++ agent_line agent_id result) in
  ret st.

Definition consolidate_memory_node (st : AgentState) : M AgentState :=
  patterns <- call (analyze_episodic_patterns (episodic_memory st)) ;;
  memory_manager_update_semantic_memory patterns ;;;
  ret st.

(** *** Pattern 4 *)

Definition compress_prompt (context0 : string) : string :=
  nl ++ i12 ++ "Compress the following context into key insights (<200 words):" ++ nl
  ++ i12 ++ nl
  ++ i12 ++ "Context: " ++ context0 ++ nl
  ++ i12 ++ nl
  ++ i12 ++ "Preserve: Task goals, completed work, key decisions" ++ nl
  ++ i12 ++ "Remove: Verbose explanations, redundant information" ++ nl
  ++ i12.

Definition compress_context_node (st : AgentState) : M AgentState :=
  compressed <- chain_run (compress_prompt (context st)) ;;
  let st := set_compressed_context st compressed in
  call (save_context (context st) compressed) ;;;
  ret st.

Definition compressed_prompt
           (agent_id compressed_context0 relevant_context task0 : string) : string :=
  nl ++ i12 ++ "You are Sub-agent " ++ agent_id ++ "." ++ nl
  ++ i12 ++ nl
  ++ i12 ++ "Compressed context: " ++ compressed_context0 ++ nl
  ++ i12 ++ "Relevant history: " ++ relevant_context ++ nl
  ++ i12 ++ "Current task: " ++ task0 ++ nl
  ++ i12 ++ nl
  ++ i12 ++ "Complete your task efficiently." ++ nl
  ++ i12.

Definition compressed_agent_node (st : AgentState) (agent_id : string)
  : M AgentState :=
  query <- pure (subtask_of st agent_id) ;;
  relevant_context <- call (load_memory_variables query) ;;
  task0 <- pure (subtask_of st agent_id) ;;
  result <-
    chain_run (compressed_prompt agent_id (compressed_context st)
                                 relevant_context task0) ;;
  ret (set_sub_result st agent_id result).

(** *** Pattern 4, enhanced *)

Definition enhanced_compress_prompt (context0 episodes : string) : string :=
  nl ++ i12 ++ "Compress the following context into key insights (<200 words):" ++ nl
  ++ i12 ++ nl
  ++ i12 ++ "Context: " ++ context0 ++ nl
  ++ i12 ++ "Relevant episodes: " ++ episodes ++ nl
  ++ i12 ++ nl
  ++ i12 ++ "Preserve: Task goals, completed work, key decisions, critical insights" ++ nl
  ++ i12 ++ "Remove: Verbose explanations, redundant information, low-priority details" ++ nl
  ++ i12 ++ "Focus on: Patterns, learnings, and actionable insights" ++ nl
  ++ i12.

Definition enhanced_compress_context_node (st : AgentState) : M AgentState :=
  relevant_episodes <- memory_manager_retrieve_relevant_episodes (context st) 3 ;;
  compressed <-
    chain_run (enhanced_compress_prompt (context st)
                                        (format_episodes relevant_episodes)) ;;
  let st := set_compressed_context st compressed in
  t <- now ;;
  let episode_data :=
    [("type", VStr "compression"); ("original_context", VStr (context st));
     ("compressed_context", VStr compressed); ("timestamp", VTime t)] in
  memory_manager_add_episode episode_data ;;;
  ret st.

(** The [context] f-string of [enhanced_compressed_agent_node]. *)
Definition optimized_context (compressed episodes semantic : string) : string :=
  nl ++ i4 ++ "Compressed context: " ++ compressed ++ nl
  ++ i4 ++ "Relevant episodes: " ++ episodes ++ nl
  ++ i4 ++ "Semantic knowledge: " ++ semantic ++ nl
  ++ i4.

Definition enhanced_compressed_prompt (agent_id context0 task0 : string) : string :=
  nl ++ i12 ++ "You are Sub-agent " ++ agent_id ++ "." ++ nl
  ++ i12 ++ nl
  ++ i12 ++ "Context: " ++ context0 ++ nl
  ++ i12 ++ "Current task: " ++ task0 ++ nl
  ++ i12 ++ nl
  ++ i12 ++ "Complete your task efficiently using the provided context." ++ nl
  ++ i12.

Definition enhanced_compressed_agent_node (st : AgentState) (agent_id : string)
  : M AgentState :=
  query <- pure (subtask_of st agent_id) ;;
  relevant_episodes <- memory_manager_retrieve_relevant_episodes query 5 ;;
  query <- pure (subtask_of st agent_id) ;;
  semantic_context <-
    (fun w => call (get_semantic_context (memory_manager w) query) w) ;;
  let context0 :=
    optimized_context (compressed_context st)
                      (format_episodes relevant_episodes) semantic_context in
  task0 <- pure (subtask_of st agent_id) ;;
  result <- chain_run (enhanced_compressed_prompt agent_id context0 task0) ;;
  task1 <- pure (subtask_of st agent_id) ;;
  t <- now ;;
  let episode_data :=
    [("agent_id", VStr agent_id); ("task", VStr task1);
     ("result", VStr result);
     ("compressed_context", VStr (compressed_context st));
     ("timestamp", VTime t)] in
  memory_manager_add_episode episode_data ;;;
  ret (set_sub_result st agent_id result).

(** *** Nodes the graphs name but the source does not define *)

(** Modelled from the spec: [break_task_node] is not in the source.  The
    planner is called on the task; an empty list is a [PlanningError];
    otherwise the ordered list becomes [state["subtasks"]]. *)
Definition break_task_node (st : AgentState) : M AgentState :=
  planned <- call (plan (task st)) ;;
  match planned with
  | [] => raise PlanningError
  | _ => ret (set_subtasks st planned)
  end.

(** Modelled from the spec: the merger nodes ([merge_sequential_node],
    [merge_compressed_node], [merge_enhanced_node],
    [merge_enhanced_compressed_node]) are not in the source.  One synthesis
    call over the results, in order, gives [state["final_result"]]; the
    synthesis is the parameter [aggregate], which may raise. *)
Definition merge_node (st : AgentState) : M AgentState :=
  final <- call (aggregate (sub_results st)) ;;
  ret (set_final_result st final).

Definition merge_sequential_node := merge_node.
Definition merge_compressed_node := merge_node.
Definition merge_enhanced_node := merge_node.
Definition merge_enhanced_compressed_node := merge_node.

(** [initialize_memory_node] is not in the source: it is the parameter
    [initialize_memory], free to change the state and the manager. *)
Definition initialize_memory_node (st : AgentState) : M AgentState :=
  fun w =>
    let (r, x) := initialize_memory st (memory_manager w) (ext w) in
    match r with
    | Ok (st', m) => (Returns st', set_memory_manager (set_ext w x) m)
    | Raise e => (Raises e, set_ext w x)
    end.

End Nodes.

(** ** Workflow graphs and their execution *)
Section Graph.
Context {caps : Capabilities} {helpers : Helpers}.

Definition node_fn : Type := AgentState -> M AgentState.

(** A [StateGraph(AgentState)] under construction. *)
Record StateGraph : Type := {
  nodes : dict node_fn;
  edges : list (string * string);
  entry_point : string
}.

(** LangGraph's [END]. *)
Definition END : string := "__end__".

Definition new_StateGraph : StateGraph :=
  {| nodes := []; edges := []; entry_point := END |}.

Definition add_node (g : StateGraph) (name : string) (fn : node_fn) : StateGraph :=
  {| nodes := dict_set (nodes g) name fn; edges := edges g;
     entry_point := entry_point g |}.

Definition add_edge (g : StateGraph) (src dst : string) : StateGraph :=
  {| nodes := nodes g; edges := edges g ++ [(src, dst)];
     entry_point := entry_point g |}.

Definition set_entry_point (g : StateGraph) (name : string) : StateGraph :=
  {| nodes := nodes g; edges := edges g; entry_point := name |}.

(** Where a run stands: about to run a node, finished, stopped by an
    exception, or failed at a subtask with the results gathered so far. *)
Inductive status : Type :=
| Running (node : string) (st : AgentState)
| Done (st : AgentState)
| Crashed (e : exn)
| Failed (subtask_id : string) (st : AgentState).

(** One node execution, then the move along the node's edge.  An
    exception leaves the graph; exhausted retries end in [Failed]. *)
Definition advance (g : StateGraph) (c : status * World) : status * World :=
  match c with
  | (Running name st, w) =>
      match dict_get (nodes g) name with
      | None => (Crashed ValueError, w)
      | Some fn =>
          match fn st w with
          | (Returns st', w') =>
              match dict_get (edges g) name with
              | Some next =>
                  if String.eqb next END then (Done st', w')
                  else (Running next st', w')
              | None => (Done st', w')
              end
          | (Raises e, w') => (Crashed e, w')
          | (Escalates i, w') => (Failed i st, w')
          end
      end
  | _ => c
  end.

(** The configuration after [n] node executions of [graph.invoke(st)]. *)
Definition run_steps (g : StateGraph) (n : nat) (st : AgentState) (w : World)
  : status * World :=
  Nat.iter n (advance g) (Running (entry_point g) st, w).

(** LangGraph's default recursion limit. *)
Definition recursion_limit : nat := 25.

(** [graph.invoke(st)]. *)
Definition invoke (g : StateGraph) (st : AgentState) (w : World)
  : status * World :=
  match run_steps g recursion_limit st w with
  | (Running _ _, w') => (Crashed GraphRecursionError, w')
  | c => c
  end.

Definition create_sequential_reliable_graph : StateGraph :=
  let workflow := new_StateGraph in
  let workflow := add_node workflow "task_breaker" break_task_node in
  let workflow := add_node workflow "agent_1"
                           (fun state => sequential_agent_node state "1") in
  let workflow := add_node workflow "agent_2"
                           (fun state => sequential_agent_node state "2") in
  let workflow := add_node workflow "merger" merge_sequential_node in
  let workflow := set_entry_point workflow "task_breaker" in
  let workflow := add_edge workflow "task_breaker" "agent_1" in
  let workflow := add_edge workflow "agent_1" "agent_2" in
  let workflow := add_edge workflow "agent_2" "merger" in
  let workflow := add_edge workflow "merger" END in
  workflow.

Definition create_sequential_reliable_enhanced_graph : StateGraph :=
  let workflow := new_StateGraph in
  let workflow := add_node workflow "task_breaker" break_task_node in
  let workflow := add_node workflow "memory_initializer" initialize_memory_node in
  let workflow := add_node workflow "agent_1"
                           (fun state => enhanced_sequential_agent_node state "1") in
  let workflow := add_node workflow "agent_2"
                           (fun state => enhanced_sequential_agent_node state "2") in
  let workflow := add_node workflow "memory_consolidator" consolidate_memory_node in
  let workflow := add_node workflow "merger" merge_enhanced_node in
  let workflow := set_entry_point workflow "task_breaker" in
  let workflow := add_edge workflow "task_breaker" "memory_initializer" in
  let workflow := add_edge workflow "memory_initializer" "agent_1" in
  let workflow := add_edge workflow "agent_1" "agent_2" in
  let workflow := add_edge workflow "agent_2" "memory_consolidator" in
  let workflow := add_edge workflow "memory_consolidator" "merger" in
  let workflow := add_edge workflow "merger" END in
  workflow.

Definition create_sequential_compressed_graph : StateGraph :=
  let workflow := new_StateGraph in
  let workflow := add_node workflow "task_breaker" break_task_node in
  let workflow := add_node workflow "compress_1" compress_context_node in
  let workflow := add_node workflow "agent_1"
                           (fun state => compressed_agent_node state "1") in
  let workflow := add_node workflow "compress_2" compress_context_node in
  let workflow := add_node workflow "agent_2"
                           (fun state => compressed_agent_node state "2") in
  let workflow := add_node workflow "compress_final" compress_context_node in
  let workflow := add_node workflow "merger" merge_compressed_node in
  let workflow := set_entry_point workflow "task_breaker" in
  let workflow := add_edge workflow "task_breaker" "compress_1" in
  let workflow := add_edge workflow "compress_1" "agent_1" in
  let workflow := add_edge workflow "agent_1" "compress_2" in
  let workflow := add_edge workflow "compress_2" "agent_2" in
  let workflow := add_edge workflow "agent_2" "compress_final" in
  let workflow := add_edge workflow "compress_final" "merger" in
  let workflow := add_edge workflow "merger" END in
  workflow.

Definition create_sequential_compressed_enhanced_graph : StateGraph :=
  let workflow := new_StateGraph in
  let workflow := add_node workflow "task_breaker" break_task_node in
  let workflow := add_node workflow "memory_initializer" initialize_memory_node in
  let workflow := add_node workflow "compress_1" enhanced_compress_context_node in
  let workflow := add_node workflow "agent_1"
                           (fun state => enhanced_compressed_agent_node state "1") in
  let workflow := add_node workflow "compress_2" enhanced_compress_context_node in
  let workflow := add_node workflow "agent_2"
                           (fun state => enhanced_compressed_agent_node state "2") in
  let workflow := add_node workflow "compress_final" enhanced_compress_context_node in
  let workflow := add_node workflow "memory_consolidator" consolidate_memory_node in
  let workflow := add_node workflow "merger" merge_enhanced_compressed_node in
  let workflow := set_entry_point workflow "task_breaker" in
  let workflow := add_edge workflow "task_breaker" "memory_initializer" in
  let workflow := add_edge workflow "memory_initializer" "compress_1" in
  let workflow := add_edge workflow "compress_1" "agent_1" in
  let workflow := add_edge workflow "agent_1" "compress_2" in
  let workflow := add_edge workflow "compress_2" "agent_2" in
  let workflow := add_edge workflow "agent_2" "compress_final" in
  let workflow := add_edge workflow "compress_final" "memory_consolidator" in
  let workflow := add_edge workflow "memory_consolidator" "merger" in
  let workflow := add_edge workflow "merger" END in
  workflow.

(** *** Recovery (Pattern 3, error handling) *)

Inductive recovery : Type :=
| Proceed
| RetryWithEnhancedPrompt
| EscalateToHumanReview.

(** The [max_retries] of the configuration. *)
Definition default_max_retries : nat := 3.

(** The recovery strategy of the Pattern 3 document, with the literal 3
    read as [max_retries]:
    [if validation_fails(result): if retry_count < 3: retry... else: escalate...]. *)
Definition recovery_strategy (max_retries : nat) (validation_failed : bool)
           (retry_count : nat) : recovery :=
  if validation_failed then
    if (retry_count <? max_retries)%nat then RetryWithEnhancedPrompt
    else EscalateToHumanReview
  else Proceed.

(** Modelled from the spec: [validation_fails] is not in the source.  A
    capability failure counts as a failed validation, and an output passes
    the minimal check when it is not empty. *)
Definition validation_fails (r : result string) : bool :=
  match r with
  | Ok s => (len s =? 0)%nat
  | Raise _ => true
  end.

(** The prompt of attempt number [retry_count]. *)
Definition prompt_of_attempt (prompt : string) (retry_count : nat) : string :=
  match retry_count with
  | O => prompt
  | S _ => enhance_prompt prompt retry_count
  end.

(** Modelled from the spec: the retry loop around the capability call is
    not in the source, only its strategy is.  Each attempt calls the
    capability; the strategy then proceeds with the output, retries with
    the count raised by one, or escalates, which gives the subtask up.
    [fuel] bounds the attempts. *)
Fixpoint invoke_with_recovery (fuel max_retries : nat) (subtask_id prompt : string)
         (retry_count : nat) : M string :=
  match fuel with
  | O => raise GraphRecursionError
  | S fuel' =>
      fun w =>
        let (r, w') := llm_call (prompt_of_attempt prompt retry_count) w in
        match recovery_strategy max_retries (validation_fails r) retry_count with
        | Proceed => (outcome_of r, w')
        | RetryWithEnhancedPrompt =>
            invoke_with_recovery fuel' max_retries subtask_id prompt
                                 (S retry_count) w'
        | EscalateToHumanReview => (Escalates subtask_id, w')
        end
  end.

(** Modelled from the spec: [sequential_agent_node] with its capability
    call under the recovery strategy. *)
Definition recovering_agent_node (max_retries : nat) (st : AgentState)
           (agent_id : string) : M AgentState :=
  task0 <- pure (subtask_of st agent_id) ;;
  result <- invoke_with_recovery (S max_retries) max_retries agent_id
              (sequential_prompt agent_id (context st) task0) 0 ;;
  let st := set_sub_result st agent_id result in
  let st := set_context st (context st ++ agent_line agent_id result) in
  ret st.

(** Modelled from the spec: the sequential graph over the recovering
    nodes. *)
Definition create_sequential_recovering_graph (max_retries : nat) : StateGraph :=
  let workflow := new_StateGraph in
  let workflow := add_node workflow "task_breaker" break_task_node in
  let workflow := add_node workflow "agent_1"
                           (fun state => recovering_agent_node max_retries state "1") in
  let workflow := add_node workflow "agent_2"
                           (fun state => recovering_agent_node max_retries state "2") in
  let workflow := add_node workflow "merger" merge_sequential_node in
  let workflow := set_entry_point workflow "task_breaker" in
  let workflow := add_edge workflow "task_breaker" "agent_1" in
  let workflow := add_edge workflow "agent_1" "agent_2" in
  let workflow := add_edge workflow "agent_2" "merger" in
  let workflow := add_edge workflow "merger" END in
  workflow.


End Graph.

(** The subtask ids of a plan: the positions counted from 1, in decimal, as
    the agent ids index them ([subtasks[int(agent_id)-1]]). *)
Definition subtask_ids (subtasks0 : list string) : list string :=
  map (fun i => NilEmpty.string_of_uint (Nat.to_uint i))
      (seq 1 (List.length subtasks0)).

(** ** Concrete capabilities

    A scripted world to run the definitions on: the language model gives
    the scripted replies in order (then the text "ok"), the planner returns
    the scripted plan, the other capabilities answer trivially. *)
Module Scripted.

Record script : Type := {
  replies : list (result string);
  planned : list string
}.

Definition scripted_llm (_ : string) (x : script) : result string * script :=
  match replies x with
  | r :: rs => (r, {| replies := rs; planned := planned x |})
  | [] => (Ok "ok", x)
  end.

Definition caps : Capabilities :=
  Build_Capabilities script nat unit
    scripted_llm
    (fun _ x => (Ok tt, x))
    (fun x => (0, x))
    (fun _ => "")
    (fun eps _ k => firstn k eps)
    (fun _ _ x => (Ok tt, x))
    (fun _ x => (Ok "", x)).

Definition helpers : @Helpers caps :=
  @Build_Helpers caps
    (fun _ x => (Ok (planned x), x))
    (fun d x => (Ok (String.concat " " (map snd d)), x))
    (fun _ => "")
    (fun _ _ x => (Ok "", x))
    (fun _ x => (Ok [], x))
    (fun st m x => (Ok (st, m), x))
    (fun p _ => p).

(** A fresh world with a script. *)
Definition world (rs : list (result string)) (pl : list string) : @World caps :=
  @Build_World caps (Build_script rs pl) (@AdvancedMemoryManager.init caps) [].

(** The initial state of a task. *)
Definition fresh (task0 : string) : @AgentState caps := initial_state task0.

End Scripted.

(** ** The shape of a run

    What a configuration reached by [graph.invoke] can look like, node by
    node, for the sequential graph. *)
Section RunShapes.
Context {caps : Capabilities} {helpers : Helpers}.

(** A run has stopped. *)
Definition terminal (s : status) : Prop :=
  match s with
  | Running _ _ => False
  | _ => True
  end.

(** What [advance] does with the outcome of the node it ran. *)
Definition continue_with (r : outcome AgentState * World) (st : AgentState)
           (next : AgentState -> status) : status * World :=
  match r with
  | (Returns st', w') => (next st', w')
  | (Raises e, w') => (Crashed e, w')
  | (Escalates i, w') => (Failed i st, w')
  end.

(** The state once the planner has answered. *)
Definition planned_state (task0 : string) (planned : list string) : AgentState :=
  set_subtasks (initial_state task0) planned.

(** The state update at the end of [sequential_agent_node]. *)
Definition after_agent (st : AgentState) (agent_id result0 : string) : AgentState :=
  set_context (set_sub_result st agent_id result0)
              (context st ++ agent_line agent_id result0).

(** The call of agent 1 on subtask [t1], and the call of agent 2 on
    subtask [t2] once agent 1 has answered [r1]. *)
Definition call_1 (t1 : string) (reply : result string) : LlmCall :=
  {| call_prompt := sequential_prompt "1" "" t1; call_reply := reply |}.

Definition call_2 (r1 t2 : string) (reply : result string) : LlmCall :=
  {| call_prompt := sequential_prompt "2" (agent_line "1" r1) t2;
     call_reply := reply |}.

(** The nodes of the compressed graph, in the order of its edges. *)
Definition compressed_path : list string :=
  ["task_breaker"; "compress_1"; "agent_1"; "compress_2"; "agent_2";
   "compress_final"; "merger"].

Section Reliable.
Variables (task0 : string) (w0 : World).

Definition planner_answer : result (list string) := fst (plan task0 (ext w0)).

Definition calls_since (w : World) (calls : list LlmCall) : Prop :=
  llm_calls w = (llm_calls w0 ++ calls)%list.

(** The configurations of [create_sequential_reliable_graph] after [n]
    node executions, from the initial state of the task. *)
Inductive reliable_at : nat -> status * World -> Prop :=
| at_task_breaker :
    reliable_at 0 (Running "task_breaker" (initial_state task0), w0)
| planner_raised n e w :
    1 <= n ->
    planner_answer = Raise e
    \/ (planner_answer = Ok [] /\ e = PlanningError) ->
    calls_since w [] ->
    reliable_at n (Crashed e, w)
| at_agent_1 t1 rest w :
    planner_answer = Ok (t1 :: rest) ->
    calls_since w [] ->
    reliable_at 1 (Running "agent_1" (planned_state task0 (t1 :: rest)), w)
| agent_1_raised n t1 rest e w :
    2 <= n ->
    planner_answer = Ok (t1 :: rest) ->
    calls_since w [call_1 t1 (Raise e)] ->
    reliable_at n (Crashed e, w)
| at_agent_2 t1 rest r1 w :
    planner_answer = Ok (t1 :: rest) ->
    calls_since w [call_1 t1 (Ok r1)] ->
    reliable_at 2 (Running "agent_2"
                     (after_agent (planned_state task0 (t1 :: rest)) "1" r1), w)
| agent_2_out_of_range n t1 r1 w :
    3 <= n ->
    planner_answer = Ok [t1] ->
    calls_since w [call_1 t1 (Ok r1)] ->
    reliable_at n (Crashed IndexError, w)
| agent_2_raised n t1 t2 rest r1 e w :
    3 <= n ->
    planner_answer = Ok (t1 :: t2 :: rest) ->
    calls_since w [call_1 t1 (Ok r1); call_2 r1 t2 (Raise e)] ->
    reliable_at n (Crashed e, w)
| at_merger t1 t2 rest r1 r2 w :
    planner_answer = Ok (t1 :: t2 :: rest) ->
    calls_since w [call_1 t1 (Ok r1); call_2 r1 t2 (Ok r2)] ->
    reliable_at 3 (Running "merger"
                     (after_agent
                        (after_agent (planned_state task0 (t1 :: t2 :: rest)) "1" r1)
                        "2" r2), w)
| merger_raised n t1 t2 rest r1 r2 e w :
    4 <= n ->
    planner_answer = Ok (t1 :: t2 :: rest) ->
    calls_since w [call_1 t1 (Ok r1); call_2 r1 t2 (Ok r2)] ->
    reliable_at n (Crashed e, w)
| merged n t1 t2 rest r1 r2 final w :
    4 <= n ->
    planner_answer = Ok (t1 :: t2 :: rest) ->
    calls_since w [call_1 t1 (Ok r1); call_2 r1 t2 (Ok r2)] ->
    reliable_at n
      (Done (set_final_result
               (after_agent
                  (after_agent (planned_state task0 (t1 :: t2 :: rest)) "1" r1)
                  "2" r2)
               final), w).

End Reliable.



Section Recovering.
Variables (max_retries : nat) (task0 : string) (w0 : World).


End Recovering.




Section Enhanced.
Variables (task0 : string) (w0 : World).

Definition episodes_of (w : World) : list episode :=
  AdvancedMemoryManager.episodic_memory (memory_manager w).


End Enhanced.

End RunShapes.

(** ** More of the source: the parallel pattern's router, the context
       validation, and what the other runs look like *)
Section MoreSource.
Context {caps : Capabilities} {helpers : Helpers}.

(** The conditional edge after an agent of the parallel graphs:
    [lambda state: "merge" if len(state["sub_results"]) == 2 else "wait"]. *)
Definition route_after_agent (st : AgentState) : string :=
  if (List.length (sub_results st) =? 2)%nat then "merge" else "wait".

(** The targets of that edge: [{"merge": "merger", "wait": END}]. *)
Definition route_targets : dict string := [("merge", "merger"); ("wait", END)].



(** The lines that the agents of the sequential graph append to the context
    for the entries of a results dict, in order. *)
Fixpoint render_results (d : dict string) : string :=
  match d with
  | [] => ""
  | (k, v) :: d' => agent_line k v ++ render_results d'
  end.

(** The agent nodes of the source, each with the name of its function. *)
Inductive agent_node : (AgentState -> string -> M AgentState) -> Prop :=
| is_sub_agent_node : agent_node sub_agent_node
| is_sequential_agent_node : agent_node sequential_agent_node
| is_enhanced_sequential_agent_node : agent_node enhanced_sequential_agent_node
| is_compressed_agent_node : agent_node compressed_agent_node
| is_enhanced_compressed_agent_node : agent_node enhanced_compressed_agent_node.

(** The nodes of the source that are defined in it. *)
Inductive source_node : node_fn -> Prop :=
| source_agent_node f agent_id :
    agent_node f -> source_node (fun st => f st agent_id)
| source_consolidate_memory_node : source_node consolidate_memory_node
| source_compress_context_node : source_node compress_context_node
| source_enhanced_compress_context_node : source_node enhanced_compress_context_node.

(** [l'] is [l] with entries appended. *)
Definition extends {A : Type} (l l' : list A) : Prop :=
  exists added, l' = (l ++ added)%list.

(** The calls of a run of the compressed graph: a compression of the
    context [ctx], and the call of an agent. *)
Definition compress_call (ctx : string) (reply : result string) : LlmCall :=
  {| call_prompt := compress_prompt ctx; call_reply := reply |}.

Definition compressed_agent_call (agent_id compressed relevant t : string)
           (reply : result string) : LlmCall :=
  {| call_prompt := compressed_prompt agent_id compressed relevant t;
     call_reply := reply |}.

(** [state["step"] = v]. *)
Definition set_step (st : AgentState) (v : string) : AgentState :=
  {| messages := messages st; task := task st; subtasks := subtasks st;
     sub_results := sub_results st; final_result := final_result st;
     context := context st; compressed_context := compressed_context st;
     step := v; episodic_memory := episodic_memory st;
     semantic_memory := semantic_memory st;
     memory_metadata := memory_metadata st |}.

(** What a node may do to the memory manager: append episodes, at most
    one, with the semantic memory left alone, and stay within what
    [__init__] and the methods of the class can produce. *)
Definition manager_kept (m m' : AdvancedMemoryManager.t) : Prop :=
  extends (AdvancedMemoryManager.episodic_memory m)
          (AdvancedMemoryManager.episodic_memory m')
  /\ List.length (AdvancedMemoryManager.episodic_memory m')
     <= S (List.length (AdvancedMemoryManager.episodic_memory m))
  /\ AdvancedMemoryManager.semantic_memory m'
     = AdvancedMemoryManager.semantic_memory m
  /\ (AdvancedMemoryManager.reachable m -> AdvancedMemoryManager.reachable m').

(** What a run of an agent node with id [agent_id] on [st] in [w] comes to,
    [r] being its outcome and the world after it.  A node that returns
    has made one call to the language model and written the reply under
    its id, having read its subtask; a node that raises has stored no
    episode. *)
Definition agent_step (st : AgentState) (agent_id : string) (w : World)
           (r : outcome AgentState * World) : Prop :=
  manager_kept (memory_manager w) (memory_manager (snd r))
  /\ match fst r with
     | Returns st' =>
         exists prompt reply t,
           llm_calls (snd r)
           = (llm_calls w ++ [{| call_prompt := prompt; call_reply := Ok reply |}])%list
           /\ sub_results st' = dict_set (sub_results st) agent_id reply
           /\ subtasks st' = subtasks st
           /\ task st' = task st
           /\ step st' = step st
           /\ compressed_context st' = compressed_context st
           /\ final_result st' = final_result st
           /\ subtask_of st agent_id = Ok t
     | Raises _ =>
         episodes_of (snd r) = episodes_of w
         /\ (llm_calls (snd r) = llm_calls w
             \/ exists c, llm_calls (snd r) = (llm_calls w ++ [c])%list)
     | Escalates _ => False
     end.

(** The value stored under a key of an episode's data, when it is text. *)
Definition episode_text (e : episode) (k : string) : option string :=
  match dict_get (Episode.data e) k with
  | Some (VStr s) => Some s
  | _ => None
  end.

(** What a run of an agent node that keeps episodes comes to: a node that
    returns has appended one episode, with the next id, that holds the
    agent id, the subtask and the reply now found in the results; a node
    that raises has appended none. *)
Definition episode_with_result (st : AgentState) (agent_id : string) (w : World)
           (r : outcome AgentState * World) : Prop :=
  match fst r with
  | Returns st' =>
      exists e reply t,
        episodes_of (snd r) = (episodes_of w ++ [e])%list
        /\ Episode.id e = List.length (episodes_of w)
        /\ episode_text e "agent_id" = Some agent_id
        /\ episode_text e "task" = Some t
        /\ subtask_of st agent_id = Ok t
        /\ episode_text e "result" = Some reply
        /\ dict_get (sub_results st') agent_id = Some reply
  | Raises _ => episodes_of (snd r) = episodes_of w
  | Escalates _ => False
  end.

(** The configuration [n] node executions after node [name] was about to
    run on [st]. *)
Definition run_steps_from (g : StateGraph) (name : string) (n : nat)
           (st : AgentState) (w : World) : status * World :=
  Nat.iter n (advance g) (Running name st, w).

(** The number of node executions on the way from [name] to END along the
    edges of [g], when END is reached within [fuel] of them. *)
Fixpoint hops_to_END (g : StateGraph) (fuel : nat) (name : string) : option nat :=
  match fuel with
  | 0 => None
  | S fuel' =>
      match dict_get (edges g) name with
      | Some next =>
          if String.eqb next END then Some 1
          else option_map S (hops_to_END g fuel' next)
      | None => Some 1
      end
  end.

(** Every [graph.invoke] has stopped after [k] node executions, so that
    the recursion limit is not what ends it. *)
Definition ends_within (g : StateGraph) (k : nat) : Prop :=
  forall st w,
    terminal (fst (run_steps g k st w))
    /\ invoke g st w = run_steps g k st w.

Section Compressed.
Variables (st0 : AgentState) (w0 : World).

(** How far the compressed graph has got, [n] node executions after
    [compress_1] was about to run on [st0]: the state reached and the
    calls made.  Every compression is of the context of [st0]; each
    agent's prompt is built from the reply of the compression before
    it. *)
Inductive compressed_progress : nat -> AgentState -> list LlmCall -> Prop :=
| progress_compress_1 st :
    sub_results st = sub_results st0 ->
    compressed_context st = compressed_context st0 ->
    compressed_progress 0 st []
| progress_agent_1 st c1 :
    sub_results st = sub_results st0 ->
    compressed_context st = c1 ->
    compressed_progress 1 st [compress_call (context st0) (Ok c1)]
| progress_compress_2 st c1 rel1 t1 r1 :
    subtask_of st0 "1" = Ok t1 ->
    sub_results st = dict_set (sub_results st0) "1" r1 ->
    compressed_context st = c1 ->
    compressed_progress 2 st
      [compress_call (context st0) (Ok c1);
       compressed_agent_call "1" c1 rel1 t1 (Ok r1)]
| progress_agent_2 st c1 rel1 t1 r1 c2 :
    subtask_of st0 "1" = Ok t1 ->
    sub_results st = dict_set (sub_results st0) "1" r1 ->
    compressed_context st = c2 ->
    compressed_progress 3 st
      [compress_call (context st0) (Ok c1);
       compressed_agent_call "1" c1 rel1 t1 (Ok r1);
       compress_call (context st0) (Ok c2)]
| progress_compress_final st c1 rel1 t1 r1 c2 rel2 t2 r2 :
    subtask_of st0 "1" = Ok t1 ->
    subtask_of st0 "2" = Ok t2 ->
    sub_results st = dict_set (dict_set (sub_results st0) "1" r1) "2" r2 ->
    compressed_context st = c2 ->
    compressed_progress 4 st
      [compress_call (context st0) (Ok c1);
       compressed_agent_call "1" c1 rel1 t1 (Ok r1);
       compress_call (context st0) (Ok c2);
       compressed_agent_call "2" c2 rel2 t2 (Ok r2)]
| progress_merger st c1 rel1 t1 r1 c2 rel2 t2 r2 c3 :
    subtask_of st0 "1" = Ok t1 ->
    subtask_of st0 "2" = Ok t2 ->
    sub_results st = dict_set (dict_set (sub_results st0) "1" r1) "2" r2 ->
    compressed_context st = c3 ->
    compressed_progress 5 st
      [compress_call (context st0) (Ok c1);
       compressed_agent_call "1" c1 rel1 t1 (Ok r1);
       compress_call (context st0) (Ok c2);
       compressed_agent_call "2" c2 rel2 t2 (Ok r2);
       compress_call (context st0) (Ok c3)].

(** The configurations of [create_sequential_compressed_graph], [n] node
    executions after [compress_1] was about to run on [st0] in [w0]. *)
Inductive compressed_at : nat -> status * World -> Prop :=
| cmp_running n name st w calls :
    nth_error compressed_path (S n) = Some name ->
    context st = context st0 ->
    subtasks st = subtasks st0 ->
    calls_since w0 w calls ->
    compressed_progress n st calls ->
    compressed_at n (Running name st, w)
| cmp_stopped n s w :
    terminal s ->
    compressed_at n (s, w).

End Compressed.

End MoreSource.

(** * Properties *)

(** ** Python indexing *)

Lemma getitem_nonneg {A : Type} (l : list A) (i : Z) :
  (0 <= i)%Z ->
  getitem l i = match nth_error l (Z.to_nat i) with
                | Some a => Ok a
                | None => Raise IndexError
                end.
Proof.
  intros Hi. unfold getitem.
  destruct (Z.ltb_spec i 0) as [Hneg|_]; [lia|].
  destruct (Z.leb_spec 0 i) as [_|Hneg]; [|lia]. simpl.
  destruct (Z.ltb_spec i (Z.of_nat (List.length l))) as [Hlt|Hge].
  - reflexivity.
  - assert (Hnone : nth_error l (Z.to_nat i) = None)
      by (apply nth_error_None; lia).
    now rewrite Hnone.
Qed.

Example getitem_last : getitem ["a"; "b"; "c"] (-1) = Ok "c".
Proof. reflexivity. Qed.

Example getitem_past_the_end : getitem ["a"] 1 = @Raise string IndexError.
Proof. reflexivity. Qed.

Example int_not_a_number : int "x1" = Raise ValueError.
Proof. reflexivity. Qed.

Example subtask_ids_of_three : subtask_ids ["a"; "b"; "c"] = ["1"; "2"; "3"].
Proof. reflexivity. Qed.

Example dict_set_keeps_insertion_order :
  keys (dict_set (dict_set (dict_set [] "2" "x") "1" "y") "2" "z") = ["2"; "1"].
Proof. reflexivity. Qed.

(** Two failures and then an answer, with three retries allowed: the run of
    the recovering graph completes, with the answer recorded. *)
Example retry_then_success :
  fst (invoke (@create_sequential_recovering_graph Scripted.caps Scripted.helpers
                                                   default_max_retries)
              (Scripted.fresh "t")
              (Scripted.world [Ok "r1"; Raise ModelError; Raise ModelError; Ok "r2"]
                              ["a"; "b"]))
  = Done (set_final_result
            (after_agent (after_agent (planned_state "t" ["a"; "b"]) "1" "r1")
                         "2" "r2")
            "r1 r2").
Proof. vm_compute. reflexivity. Qed.

Lemma int_1 : int "1" = Ok 1%Z.
Proof. reflexivity. Qed.

Lemma int_2 : int "2" = Ok 2%Z.
Proof. reflexivity. Qed.

(** ** The memory manager *)
Section ManagerFacts.
Context {caps : Capabilities}.
Import AdvancedMemoryManager.

Lemma add_episode_inv (self : t) (d : episode_data) (x : Ext) (self' : t) (x' : Ext) :
  add_episode self d x = (Ok self', x') ->
  exists now v,
    self' = {| episodic_memory :=
                 episodic_memory self
                 ++ [{| Episode.id := List.length (episodic_memory self);
                        Episode.timestamp := now;
                        Episode.data := d;
                        Episode.embeddings := v |}];
               semantic_memory := semantic_memory self |}.
Proof.
  unfold add_episode. intros H.
  destruct (time_time x) as [now x1].
  destruct (embed_query (str d) x1) as [[v|e] x2]; inversion H; subst.
  now exists now, v.
Qed.

Lemma ids_consecutive_app (self : t) (e : episode) (sem : dict episode_data) :
  ids_consecutive self ->
  Episode.id e = List.length (episodic_memory self) ->
  ids_consecutive {| episodic_memory := episodic_memory self ++ [e];
                     semantic_memory := sem |}.
Proof.
  unfold ids_consecutive. cbn [episodic_memory]. intros Hinv Hid.
  rewrite map_app, length_app, seq_app.
  f_equal; [exact Hinv | cbn; now rewrite Hid].
Qed.

Lemma reachable_ids_consecutive (self : t) :
  reachable self -> ids_consecutive self.
Proof.
  induction 1 as [|self d x self' x' _ IH Hadd|self knowledge _ IH].
  - reflexivity.
  - destruct (add_episode_inv _ _ _ _ _ Hadd) as (now & v & ->).
    now apply ids_consecutive_app.
  - exact IH.
Qed.

Lemma ids_consecutive_nth (self : t) (i : nat) (e : episode) :
  ids_consecutive self ->
  nth_error (episodic_memory self) i = Some e ->
  Episode.id e = i.
Proof.
  unfold ids_consecutive. intros Hinv Hnth.
  assert (Hlt : i < List.length (episodic_memory self))
    by (apply nth_error_Some; congruence).
  assert (Hmap : nth_error (map Episode.id (episodic_memory self)) i
                 = Some (Episode.id e))
    by (now apply map_nth_error).
  rewrite Hinv in Hmap.
  rewrite nth_error_seq in Hmap.
  destruct (Nat.ltb_spec i (List.length (episodic_memory self))); [|lia].
  now inversion Hmap.
Qed.

(** C9.  [add_episode] gives the new episode the number of episodes
    already stored as its id and appends it, leaving the stored episodes
    and the semantic memory as they were; in a manager built from
    [__init__] the ids are therefore 0, 1, 2, ... in creation order,
    each stored episode's id being its position and smaller than the id
    of the episode just added. *)
Theorem add_episode_appends_next_id
        (self : t) (d : episode_data) (x : Ext) (self' : t) (x' : Ext) :
  reachable self ->
  add_episode self d x = (Ok self', x') ->
  exists e,
    episodic_memory self' = (episodic_memory self ++ [e])%list
    /\ Episode.id e = List.length (episodic_memory self)
    /\ Episode.data e = d
    /\ semantic_memory self' = semantic_memory self
    /\ map Episode.id (episodic_memory self')
       = seq 0 (List.length (episodic_memory self'))
    /\ (forall i e0, nth_error (episodic_memory self) i = Some e0 ->
                     nth_error (episodic_memory self') i = Some e0
                     /\ Episode.id e0 = i
                     /\ Episode.id e0 < Episode.id e).
Proof.
  intros Hreach Hadd.
  pose proof (reachable_ids_consecutive _ Hreach) as Hinv.
  destruct (add_episode_inv _ _ _ _ _ Hadd) as (now & v & ->).
  eexists. cbn [episodic_memory semantic_memory].
  split; [reflexivity|]. cbn [Episode.id Episode.data].
  repeat split; try reflexivity.
  - now apply (ids_consecutive_app self _ (semantic_memory self) Hinv).
  - rewrite nth_error_app1; [assumption|].
    apply nth_error_Some; congruence.
  - now apply (ids_consecutive_nth self).
  - rewrite (ids_consecutive_nth self i e0 Hinv H).
    apply nth_error_Some; congruence.
Qed.

End ManagerFacts.

(** C9, on the scripted capabilities: the first episode of a fresh manager. *)
Lemma add_episode_appends_next_id_witness :
  exists e : @episode Scripted.caps,
    Episode.id e = 0 /\ Episode.data e = [("result", VStr "r")].
Proof.
  destruct (@add_episode_appends_next_id Scripted.caps
              AdvancedMemoryManager.init [("result", VStr "r")]
              (Scripted.Build_script [] []) _ _
              (AdvancedMemoryManager.reachable_init) eq_refl)
    as (e & _ & H2 & H3 & _).
  exists e. split; assumption.
Defined.

(** ** Strings *)

Lemma append_assoc (a b c : string) : (a ++ b) ++ c = a ++ b ++ c.
Proof. induction a as [|ch a IH]; simpl; [reflexivity | now rewrite IH]. Qed.

Lemma append_nil_r (a : string) : a ++ "" = a.
Proof. induction a as [|ch a IH]; simpl; [reflexivity | now rewrite IH]. Qed.

Lemma length_append (a b : string) : len (a ++ b) = len a + len b.
Proof. unfold len. induction a as [|ch a IH]; simpl; [reflexivity | now rewrite IH]. Qed.

Lemma contains_refl (s : string) : contains s s.
Proof. exists "", "". simpl. now rewrite append_nil_r. Qed.

Lemma contains_app_r (a b s : string) : contains b s -> contains (a ++ b) s.
Proof.
  intros (pre & post & ->). exists (a ++ pre), post. now rewrite append_assoc.
Qed.

Lemma contains_app_l (a b s : string) : contains a s -> contains (a ++ b) s.
Proof.
  intros (pre & post & ->). exists pre, (post ++ b).
  now rewrite !append_assoc.
Qed.

Lemma contains_len (t s : string) : contains t s -> len s <= len t.
Proof. intros (pre & post & ->). rewrite !length_append. lia. Qed.

(** ** Node by node *)
Section NodeFacts.
Context {caps : Capabilities} {helpers : Helpers}.

Lemma subtask_of_1 (st : AgentState) :
  subtask_of st "1" = match subtasks st with
                      | t1 :: _ => Ok t1
                      | [] => Raise IndexError
                      end.
Proof.
  unfold subtask_of. rewrite int_1.
  rewrite getitem_nonneg by lia. now destruct (subtasks st).
Qed.

Lemma subtask_of_2 (st : AgentState) :
  subtask_of st "2" = match subtasks st with
                      | _ :: t2 :: _ => Ok t2
                      | _ => Raise IndexError
                      end.
Proof.
  unfold subtask_of. rewrite int_2.
  rewrite getitem_nonneg by lia. now destruct (subtasks st) as [|? [|? ?]].
Qed.

Lemma llm_call_log (prompt : string) (w : World) :
  llm_calls (snd (llm_call prompt w))
  = (llm_calls w ++ [{| call_prompt := prompt;
                        call_reply := fst (llm_call prompt w) |}])%list
  /\ memory_manager (snd (llm_call prompt w)) = memory_manager w
  /\ llm prompt (ext w) = (fst (llm_call prompt w), ext (snd (llm_call prompt w))).
Proof.
  unfold llm_call. destruct (llm prompt (ext w)) as [r x]. simpl. auto.
Qed.

(** [sequential_agent_node], step by step. *)
Lemma sequential_agent_node_eq (st : AgentState) (agent_id : string) (w : World) :
  sequential_agent_node st agent_id w =
  match subtask_of st agent_id with
  | Raise e => (Raises e, w)
  | Ok t =>
      match llm_call (sequential_prompt agent_id (context st) t) w with
      | (Ok r, w') => (Returns (after_agent st agent_id r), w')
      | (Raise e, w') => (Raises e, w')
      end
  end.
Proof.
  unfold sequential_agent_node, bind, pure, chain_run, ret.
  destruct (subtask_of st agent_id) as [t|e]; simpl; [|reflexivity].
  now destruct (llm_call _ w) as [[r|e] w'].
Qed.

Lemma break_task_node_eq (st : AgentState) (w : World) :
  break_task_node st w =
  match plan (task st) (ext w) with
  | (Raise e, x) => (Raises e, set_ext w x)
  | (Ok [], x) => (Raises PlanningError, set_ext w x)
  | (Ok planned, x) => (Returns (set_subtasks st planned), set_ext w x)
  end.
Proof.
  unfold break_task_node, bind, call, raise, ret.
  now destruct (plan (task st) (ext w)) as [[[|t planned]|e] x].
Qed.

Lemma merge_node_eq (st : AgentState) (w : World) :
  merge_node st w =
  match aggregate (sub_results st) (ext w) with
  | (Ok final, x) => (Returns (set_final_result st final), set_ext w x)
  | (Raise e, x) => (Raises e, set_ext w x)
  end.
Proof.
  unfold merge_node, bind, call, ret.
  now destruct (aggregate (sub_results st) (ext w)) as [[final|e] x].
Qed.

End NodeFacts.

(** ** Runs *)
Section RunFacts.
Context {caps : Capabilities} {helpers : Helpers}.

Lemma run_steps_S (g : StateGraph) (n : nat) (st : AgentState) (w : World) :
  run_steps g (S n) st w = advance g (run_steps g n st w).
Proof. reflexivity. Qed.

Lemma advance_terminal (g : StateGraph) (s : status) (w : World) :
  terminal s -> advance g (s, w) = (s, w).
Proof. now destruct s. Qed.

Lemma run_steps_stable (g : StateGraph) (st : AgentState) (w : World)
      (n m : nat) (s : status) (w' : World) :
  run_steps g n st w = (s, w') -> terminal s -> n <= m ->
  run_steps g m st w = (s, w').
Proof.
  intros Hn Hs Hle. induction Hle as [|m Hle IH]; [assumption|].
  rewrite run_steps_S, IH. now apply advance_terminal.
Qed.

Lemma invoke_terminal (g : StateGraph) (st : AgentState) (w : World)
      (n : nat) (s : status) (w' : World) :
  run_steps g n st w = (s, w') -> terminal s -> n <= recursion_limit ->
  invoke g st w = (s, w').
Proof.
  intros Hn Hs Hle. unfold invoke.
  rewrite (run_steps_stable g st w n recursion_limit s w' Hn Hs Hle).
  now destruct s.
Qed.

(** The four nodes of the sequential graph. *)
Lemma reliable_task_breaker (st : AgentState) (w : World) :
  advance create_sequential_reliable_graph (Running "task_breaker" st, w)
  = continue_with (break_task_node st w) st (Running "agent_1").
Proof. reflexivity. Qed.

Lemma reliable_agent_1 (st : AgentState) (w : World) :
  advance create_sequential_reliable_graph (Running "agent_1" st, w)
  = continue_with (sequential_agent_node st "1" w) st (Running "agent_2").
Proof. reflexivity. Qed.

Lemma reliable_agent_2 (st : AgentState) (w : World) :
  advance create_sequential_reliable_graph (Running "agent_2" st, w)
  = continue_with (sequential_agent_node st "2" w) st (Running "merger").
Proof. reflexivity. Qed.

Lemma reliable_merger (st : AgentState) (w : World) :
  advance create_sequential_reliable_graph (Running "merger" st, w)
  = continue_with (merge_sequential_node st w) st Done.
Proof. reflexivity. Qed.

Lemma calls_since_llm_call (w0 w : World) (calls : list LlmCall) (prompt : string) :
  calls_since w0 w calls ->
  calls_since w0 (snd (llm_call prompt w))
              (calls ++ [{| call_prompt := prompt;
                            call_reply := fst (llm_call prompt w) |}]).
Proof.
  unfold calls_since. intros H.
  destruct (llm_call_log prompt w) as (-> & _ & _).
  now rewrite H, <- app_assoc.
Qed.

(** Every configuration of a run of the sequential graph has one of the
    shapes of [reliable_at]. *)
Lemma reliable_run (task0 : string) (w0 : World) (n : nat) :
  reliable_at task0 w0 n
    (run_steps create_sequential_reliable_graph n (initial_state task0) w0).
Proof.
  induction n as [|n IH]; [constructor|].
  rewrite run_steps_S.
  revert IH.
  generalize (run_steps create_sequential_reliable_graph n (initial_state task0) w0).
  intros c IH.
  destruct IH as
      [
      | k e w Hk Hp Hcalls
      | t1 rest w Hp Hcalls
      | k t1 rest e w Hk Hp Hcalls
      | t1 rest r1 w Hp Hcalls
      | k t1 r1 w Hk Hp Hcalls
      | k t1 t2 rest r1 e w Hk Hp Hcalls
      | t1 t2 rest r1 r2 w Hp Hcalls
      | k t1 t2 rest r1 r2 e w Hk Hp Hcalls
      | k t1 t2 rest r1 r2 final w Hk Hp Hcalls ].
  - (* task_breaker *)
    rewrite reliable_task_breaker, break_task_node_eq. cbn [task initial_state].
    destruct (plan task0 (ext w0)) as [[[|t1 rest]|e] x] eqn:Hplan; cbn.
    + apply planner_raised; [lia| |].
      * right. unfold planner_answer. now rewrite Hplan.
      * unfold calls_since. cbn. now rewrite app_nil_r.
    + apply at_agent_1.
      * unfold planner_answer. now rewrite Hplan.
      * unfold calls_since. cbn. now rewrite app_nil_r.
    + apply planner_raised; [lia| |].
      * left. unfold planner_answer. now rewrite Hplan.
      * unfold calls_since. cbn. now rewrite app_nil_r.
  - rewrite advance_terminal by exact I. now apply planner_raised; [lia|..].
  - (* agent_1 *)
    rewrite reliable_agent_1, sequential_agent_node_eq, subtask_of_1.
    cbn [subtasks planned_state set_subtasks context initial_state].
    pose proof (calls_since_llm_call w0 w [] (sequential_prompt "1" "" t1) Hcalls)
      as Hlog.
    destruct (llm_call (sequential_prompt "1" "" t1) w) as [[r1|e] w']; cbn in *.
    + now apply at_agent_2.
    + now apply agent_1_raised with (t1 := t1) (rest := rest).
  - rewrite advance_terminal by exact I.
    apply agent_1_raised with (t1 := t1) (rest := rest); [lia|assumption..].
  - (* agent_2 *)
    rewrite reliable_agent_2, sequential_agent_node_eq, subtask_of_2.
    cbn [subtasks planned_state set_subtasks after_agent set_context
                  set_sub_result context initial_state].
    destruct rest as [|t2 rest].
    + cbn. now apply agent_2_out_of_range with (t1 := t1) (r1 := r1).
    + pose proof (calls_since_llm_call w0 w _
                    (sequential_prompt "2" ("" ++ agent_line "1" r1) t2) Hcalls)
        as Hlog.
      destruct (llm_call (sequential_prompt "2" ("" ++ agent_line "1" r1) t2) w)
        as [[r2|e] w']; cbn in *.
      * now apply at_merger.
      * now apply agent_2_raised with (t1 := t1) (t2 := t2) (rest := rest) (r1 := r1).
  - rewrite advance_terminal by exact I.
    apply agent_2_out_of_range with (t1 := t1) (r1 := r1); [lia|assumption..].
  - rewrite advance_terminal by exact I.
    apply agent_2_raised with (t1 := t1) (t2 := t2) (rest := rest) (r1 := r1);
      [lia|assumption..].
  - (* merger *)
    rewrite reliable_merger. unfold merge_sequential_node. rewrite merge_node_eq.
    destruct (aggregate _ (ext w)) as [[final|e] x]; cbn.
    + apply merged; [lia|assumption|]. unfold calls_since in *. exact Hcalls.
    + apply merger_raised with (t1 := t1) (t2 := t2) (rest := rest)
                               (r1 := r1) (r2 := r2); [lia|assumption|].
      unfold calls_since in *. exact Hcalls.
  - rewrite advance_terminal by exact I.
    apply merger_raised with (t1 := t1) (t2 := t2) (rest := rest)
                             (r1 := r1) (r2 := r2); [lia|assumption..].
  - rewrite advance_terminal by exact I. apply merged; [lia|assumption..].
Qed.

End RunFacts.

(** ** The sequential graph *)
Section SequentialGraph.
Context {caps : Capabilities} {helpers : Helpers}.

Lemma contains_agent_line (agent_id r : string) : contains (agent_line agent_id r) r.
Proof. unfold agent_line. do 4 apply contains_app_r. apply contains_refl. Qed.

Lemma contains_sequential_prompt (agent_id ctx t r : string) :
  contains ctx r -> contains (sequential_prompt agent_id ctx t) r.
Proof.
  intros H. unfold sequential_prompt.
  do 10 apply contains_app_r. now apply contains_app_l.
Qed.

Lemma invoke_run_steps (g : StateGraph) (st0 : AgentState) (w0 : World)
      (s : status) (w : World) :
  invoke g st0 w0 = (s, w) -> s <> Crashed GraphRecursionError ->
  run_steps g recursion_limit st0 w0 = (s, w).
Proof.
  unfold invoke. destruct (run_steps g recursion_limit st0 w0) as [[? ?|?|?|? ?] w'];
    intros H Hs; inversion H; subst; congruence.
Qed.

(** C1.  In every run of the sequential graph the calls to the language
    model are, in order, agent 1's and then agent 2's; agent 2's call
    only exists after agent 1's call has returned an output [r1], and its
    prompt contains [r1].  When agent 2's step begins, [r1] is already
    recorded under "1" in the results and is part of the context from
    which the prompt is assembled. *)
Theorem later_prompt_contains_earlier_output
        (task0 : string) (w0 : World) (n : nat) (s : status) (w : World) :
  run_steps create_sequential_reliable_graph n (initial_state task0) w0 = (s, w) ->
  (exists calls,
      llm_calls w = (llm_calls w0 ++ calls)%list
      /\ (calls = []
          \/ (exists t1 reply, calls = [call_1 t1 reply])
          \/ (exists t1 r1 t2 reply,
                 calls = [call_1 t1 (Ok r1); call_2 r1 t2 reply]
                 /\ contains (call_prompt (call_2 r1 t2 reply)) r1)))
  /\ (forall st, s = Running "agent_2" st ->
        exists t1 r1,
          llm_calls w = (llm_calls w0 ++ [call_1 t1 (Ok r1)])%list
          /\ dict_get (sub_results st) "1" = Some r1
          /\ contains (context st) r1
          /\ (forall t2, contains (sequential_prompt "2" (context st) t2) r1)).
Proof.
  intros Hrun. pose proof (reliable_run task0 w0 n) as Hinv.
  rewrite Hrun in Hinv. clear Hrun.
  assert (Hp2 : forall r1 t2 reply, contains (call_prompt (call_2 r1 t2 reply)) r1)
    by (intros; apply contains_sequential_prompt, contains_agent_line).
  inversion Hinv; subst; (split; [|intros st0 Hst; try discriminate Hst]).
  all: try (eexists; split; [eassumption|]; eauto 10; fail).
  - exists []. rewrite app_nil_r. auto.
  - inversion Hst; subst. exists t1, r1.
    repeat split; try assumption; try reflexivity.
    + exact (contains_agent_line "1" r1).
    + intros t2. apply contains_sequential_prompt.
      exact (contains_agent_line "1" r1).
Qed.

(** An agent node that returns has written its output under its own agent
    id and under no other key. *)
Lemma agent_node_writes_own_key
      (st0 : AgentState) (agent_id : string) (w1 : World)
      (st1 : AgentState) (w2 : World) :
  sequential_agent_node st0 agent_id w1 = (Returns st1, w2)
  \/ sub_agent_node st0 agent_id w1 = (Returns st1, w2) ->
  exists r, sub_results st1 = dict_set (sub_results st0) agent_id r.
Proof.
  intros [H|H].
  - rewrite sequential_agent_node_eq in H.
    destruct (subtask_of st0 agent_id) as [t|e]; [|discriminate].
    destruct (llm_call _ w1) as [[r|e] w']; inversion H; subst.
    now exists r.
  - unfold sub_agent_node, bind, pure, chain_run, ret in H.
    destruct (subtask_of st0 agent_id) as [t|e]; [|discriminate].
    cbn in H.
    destruct (llm_call _ w1) as [[r|e] w']; inversion H; subst.
    now exists r.
Qed.

(** C2, amended.  A run of the sequential graph that ends in success has
    recorded results under exactly the keys "1" and "2", the ids of its
    two agent nodes, whatever the number of planned subtasks (at least
    two).  Both keys are planned subtask ids, and they are all of the
    planned subtask ids exactly when two subtasks were planned.  Each
    agent node writes under its own agent id only. *)
Theorem results_keys_on_success
        (task0 : string) (w0 : World) (st : AgentState) (w : World) :
  invoke create_sequential_reliable_graph (initial_state task0) w0 = (Done st, w) ->
  keys (sub_results st) = ["1"; "2"]
  /\ planner_answer task0 w0 = Ok (subtasks st)
  /\ 2 <= List.length (subtasks st)
  /\ (forall k, In k (keys (sub_results st)) -> In k (subtask_ids (subtasks st)))
  /\ (keys (sub_results st) = subtask_ids (subtasks st)
      <-> List.length (subtasks st) = 2)
  /\ (forall st0 agent_id w1 st1 w2,
        sequential_agent_node st0 agent_id w1 = (Returns st1, w2)
        \/ sub_agent_node st0 agent_id w1 = (Returns st1, w2) ->
        exists r, sub_results st1 = dict_set (sub_results st0) agent_id r).
Proof.
  intros Hrun. apply invoke_run_steps in Hrun; [|discriminate].
  pose proof (reliable_run task0 w0 recursion_limit) as Hinv.
  rewrite Hrun in Hinv. inversion Hinv; subst.
  cbn [sub_results subtasks set_final_result after_agent set_context
                   set_sub_result planned_state set_subtasks initial_state].
  split; [reflexivity|]. split; [assumption|]. split; [cbn; lia|].
  split.
  { intros k Hk. unfold subtask_ids. cbn in *. tauto. }
  split; [split|exact agent_node_writes_own_key].
  - intros Hkeys. apply (f_equal (@List.length string)) in Hkeys.
    unfold subtask_ids in Hkeys. rewrite length_map, length_seq in Hkeys.
    cbn in Hkeys. cbn. lia.
  - intros Hlen. destruct rest; [reflexivity|discriminate Hlen].
Qed.

End SequentialGraph.

(** C1, on a scripted run: two subtasks, agent 1 answers "r1". *)
Lemma later_prompt_contains_earlier_output_witness :
  contains (sequential_prompt "2" (agent_line "1" "r1") "b") "r1".
Proof.
  edestruct (@later_prompt_contains_earlier_output Scripted.caps Scripted.helpers
               "t" (Scripted.world [Ok "r1"] ["a"; "b"]) 2) as [_ H].
  { lazy. reflexivity. }
  destruct (H _ eq_refl) as (t1 & r1 & Hcalls & Hget & _ & Hprompt).
  inversion Hget; subst. exact (Hprompt "b").
Defined.

(** C2, on a scripted run with two subtasks. *)
Lemma results_keys_on_success_witness :
  keys [("1", "r1"); ("2", "r2")] = ["1"; "2"].
Proof.
  edestruct (@results_keys_on_success Scripted.caps Scripted.helpers
               "t" (Scripted.world [Ok "r1"; Ok "r2"] ["a"; "b"])) as [H _].
  { vm_compute. reflexivity. }
  exact H.
Defined.

(** C2 as stated fails: three subtasks are planned, the run ends in
    success, and the results hold the keys "1" and "2" only. *)
Lemma results_keys_miss_third_subtask :
  exists st w,
    invoke (@create_sequential_reliable_graph Scripted.caps Scripted.helpers)
           (initial_state "t") (Scripted.world [Ok "r1"; Ok "r2"] ["a"; "b"; "c"])
    = (Done st, w)
    /\ subtasks st = ["a"; "b"; "c"]
    /\ subtask_ids (subtasks st) = ["1"; "2"; "3"]
    /\ keys (sub_results st) = ["1"; "2"]
    /\ keys (sub_results st) <> subtask_ids (subtasks st).
Proof.
  eexists. eexists. split; [vm_compute; reflexivity|].
  repeat split; try reflexivity. discriminate.
Qed.

(** ** Fewer than two subtasks *)
Section ShortPlan.
Context {caps : Capabilities} {helpers : Helpers}.

Lemma subtask_of_2_short (st : AgentState) :
  List.length (subtasks st) < 2 -> subtask_of st "2" = Raise IndexError.
Proof.
  intros Hlen. rewrite subtask_of_2.
  destruct (subtasks st) as [|t1 [|t2 rest]]; try reflexivity.
  cbn in Hlen. lia.
Qed.

(** The configuration [graph.invoke] ends in has one of the terminal
    shapes of [reliable_at]. *)
Lemma reliable_invoke (task0 : string) (w0 : World) :
  reliable_at task0 w0 recursion_limit
    (invoke create_sequential_reliable_graph (initial_state task0) w0)
  /\ terminal (fst (invoke create_sequential_reliable_graph
                            (initial_state task0) w0)).
Proof.
  pose proof (reliable_run task0 w0 recursion_limit) as Hinv.
  unfold invoke.
  destruct (run_steps create_sequential_reliable_graph recursion_limit
                      (initial_state task0) w0) as [s w].
  inversion Hinv; subst; (split; [assumption|exact I]).
Qed.

(** C10.  When the planner produces fewer than two subtasks, the access
    [subtasks[int("2")-1]] of every agent node run as agent 2 is out of
    bounds: the node raises [IndexError] before any capability call and
    leaves the world as it was.  The run of the sequential graph then
    ends with an exception (this [IndexError], unless the plan is empty or
    agent 1's own call raised first): it is never completed and it never
    enters the failed state; whenever agent 2's step is reached, it is
    this [IndexError] that ends the run. *)
Theorem second_agent_out_of_bounds
        (task0 : string) (w0 : World) (planned : list string) :
  planner_answer task0 w0 = Ok planned ->
  List.length planned < 2 ->
  (forall st w,
      subtasks st = planned ->
      sequential_agent_node st "2" w = (Raises IndexError, w)
      /\ sub_agent_node st "2" w = (Raises IndexError, w)
      /\ enhanced_sequential_agent_node st "2" w = (Raises IndexError, w)
      /\ compressed_agent_node st "2" w = (Raises IndexError, w)
      /\ enhanced_compressed_agent_node st "2" w = (Raises IndexError, w))
  /\ (exists e w,
        invoke create_sequential_reliable_graph (initial_state task0) w0
        = (Crashed e, w)
        /\ (e = IndexError
            \/ (planned = [] /\ e = PlanningError)
            \/ (exists t1, calls_since w0 w [call_1 t1 (Raise e)])))
  /\ (forall n st w,
        run_steps create_sequential_reliable_graph n (initial_state task0) w0
        = (Running "agent_2" st, w) ->
        advance create_sequential_reliable_graph (Running "agent_2" st, w)
        = (Crashed IndexError, w)
        /\ invoke create_sequential_reliable_graph (initial_state task0) w0
           = (Crashed IndexError, w)).
Proof.
  intros Hplan Hlen.
  assert (Hnodes : forall st w,
             subtasks st = planned ->
             sequential_agent_node st "2" w = (Raises IndexError, w)
             /\ sub_agent_node st "2" w = (Raises IndexError, w)
             /\ enhanced_sequential_agent_node st "2" w = (Raises IndexError, w)
             /\ compressed_agent_node st "2" w = (Raises IndexError, w)
             /\ enhanced_compressed_agent_node st "2" w = (Raises IndexError, w)).
  { intros st w Hst.
    assert (Hsub : subtask_of st "2" = Raise IndexError)
      by (apply subtask_of_2_short; now rewrite Hst).
    unfold sequential_agent_node, sub_agent_node, enhanced_sequential_agent_node,
      compressed_agent_node, enhanced_compressed_agent_node, bind, pure.
    rewrite Hsub. cbn. auto. }
  split; [exact Hnodes|]. split.
  - destruct (reliable_invoke task0 w0) as [Hinv Hterm].
    destruct (invoke create_sequential_reliable_graph (initial_state task0) w0)
      as [s w].
    inversion Hinv; subst; try (exfalso; exact Hterm);
      try match goal with
          | H : planner_answer task0 w0 = Ok (_ :: _ :: _) |- _ =>
              rewrite Hplan in H; inversion H; subst; cbn in Hlen; lia
          end;
      eexists; eexists; (split; [reflexivity|]).
    + match goal with
      | Hor : _ \/ _ |- _ => destruct Hor as [Hraise|[Hempty ->]]
      end.
      * rewrite Hplan in Hraise. discriminate.
      * rewrite Hplan in Hempty. inversion Hempty; subst. auto.
    + right. right. eauto.
    + left. reflexivity.
  - intros n st w Hrun.
    pose proof (reliable_run task0 w0 n) as Hinv. rewrite Hrun in Hinv.
    inversion Hinv; subst.
    assert (Hadv : advance create_sequential_reliable_graph
                           (Running "agent_2"
                              (after_agent (planned_state task0 (t1 :: rest)) "1" r1), w)
                   = (Crashed IndexError, w)).
    { rewrite reliable_agent_2.
      destruct (Hnodes (after_agent (planned_state task0 (t1 :: rest)) "1" r1) w)
        as [-> _]; [|reflexivity].
      cbn. congruence. }
    split; [exact Hadv|].
    apply (invoke_terminal _ _ _ 3); [|exact I|unfold recursion_limit; lia].
    rewrite run_steps_S, Hrun. exact Hadv.
Qed.

End ShortPlan.

(** C10, on a scripted run: one subtask planned, agent 1 answers. *)
Lemma second_agent_out_of_bounds_witness :
  exists w,
    invoke (@create_sequential_reliable_graph Scripted.caps Scripted.helpers)
           (initial_state "t") (Scripted.world [Ok "r1"] ["a"])
    = (Crashed IndexError, w).
Proof.
  destruct (@second_agent_out_of_bounds Scripted.caps Scripted.helpers
              "t" (Scripted.world [Ok "r1"] ["a"]) ["a"] eq_refl)
    as (_ & _ & H).
  { simpl. lia. }
  edestruct (H 2) as [_ Hinvoke].
  { lazy. reflexivity. }
  eexists. exact Hinvoke.
Defined.

(** ** Consolidation *)
Section Consolidation.
Context {caps : Capabilities} {helpers : Helpers}.

Lemma consolidate_memory_node_keeps_manager (st : AgentState) (w : World) :
  memory_manager (snd (consolidate_memory_node st w)) = memory_manager w
  /\ llm_calls (snd (consolidate_memory_node st w)) = llm_calls w.
Proof.
  unfold consolidate_memory_node, bind, call, memory_manager_update_semantic_memory,
    ret.
  destruct (analyze_episodic_patterns (episodic_memory st) (ext w)) as [[k|e] x];
    cbn; auto.
Qed.


End Consolidation.

(** ** Compression *)
Section Compression.
Context {caps : Capabilities} {helpers : Helpers}.

(** [compress_context_node], step by step. *)
Lemma compress_context_node_eq (st : AgentState) (w : World) :
  compress_context_node st w =
  match llm_call (compress_prompt (context st)) w with
  | (Raise e, w1) => (Raises e, w1)
  | (Ok compressed, w1) =>
      match save_context (context st) compressed (ext w1) with
      | (Ok _, x) => (Returns (set_compressed_context st compressed), set_ext w1 x)
      | (Raise e, x) => (Raises e, set_ext w1 x)
      end
  end.
Proof.
  unfold compress_context_node, bind, chain_run, call, ret.
  destruct (llm_call (compress_prompt (context st)) w) as [[compressed|e] w1];
    cbn; [|reflexivity].
  now destruct (save_context (context st) compressed (ext w1)) as [[[]|e] x].
Qed.

Lemma contains_compress_prompt_limit (ctx : string) :
  contains (compress_prompt ctx) "(<200 words)".
Proof.
  unfold compress_prompt. do 2 apply contains_app_r. apply contains_app_l.
  exists "Compress the following context into key insights ", ":". reflexivity.
Qed.

Lemma contains_compress_prompt_context (ctx : string) :
  contains (compress_prompt ctx) ctx.
Proof.
  unfold compress_prompt. do 8 apply contains_app_r. apply contains_app_l.
  apply contains_refl.
Qed.

Lemma contains_enhanced_compress_prompt_limit (ctx episodes : string) :
  contains (enhanced_compress_prompt ctx episodes) "(<200 words)".
Proof.
  unfold enhanced_compress_prompt. do 2 apply contains_app_r. apply contains_app_l.
  exists "Compress the following context into key insights ", ":". reflexivity.
Qed.

Lemma contains_enhanced_compress_prompt_context (ctx episodes : string) :
  contains (enhanced_compress_prompt ctx episodes) ctx.
Proof.
  unfold enhanced_compress_prompt. do 8 apply contains_app_r. apply contains_app_l.
  apply contains_refl.
Qed.

(** A step of [enhanced_compress_context_node] that returns has made one
    call to the language model and has stored the reply. *)
Lemma enhanced_compress_context_node_returns (st : AgentState) (w : World) :
  match enhanced_compress_context_node st w with
  | (Returns st', w') =>
      exists eps compressed,
        st' = set_compressed_context st compressed
        /\ llm_calls w'
           = (llm_calls w
              ++ [{| call_prompt :=
                       enhanced_compress_prompt (context st) (format_episodes eps);
                     call_reply := Ok compressed |}])%list
  | (Raises _, _) => True
  | (Escalates _, _) => False
  end.
Proof.
  unfold enhanced_compress_context_node, bind, chain_run, llm_call, now,
    memory_manager_retrieve_relevant_episodes, memory_manager_add_episode,
    AdvancedMemoryManager.retrieve_relevant_episodes,
    AdvancedMemoryManager.add_episode, ret.
  destruct (embed_query (context st) (ext w)) as [[v|e] x1]; cbn [outcome_of];
    [|exact I].
  cbn [ext set_ext memory_manager llm_calls].
  destruct (llm _ x1) as [[compressed|e] x2]; cbn [outcome_of]; [|exact I].
  cbn [ext set_ext memory_manager llm_calls].
  destruct (time_time x2) as [t0 x3]. cbn [ext set_ext memory_manager llm_calls].
  destruct (time_time x3) as [t1 x4].
  destruct (embed_query _ x4) as [[v2|e] x5]; [|exact I].
  eexists _, compressed. split; reflexivity.
Qed.

(** C6, amended.  A compression step that returns (plain or enhanced) has
    made one call to the language model; the prompt of that call holds the
    context and asks for "(<200 words)"; the reply of that call, whatever
    its length, is the new [compressed_context], and nothing else of the
    state has changed.  So the output is no longer than the input exactly
    when the reply is. *)
Theorem compressed_context_is_the_reply
        (st : AgentState) (w : World) (st' : AgentState) (w' : World) :
  compress_context_node st w = (Returns st', w')
  \/ enhanced_compress_context_node st w = (Returns st', w') ->
  exists prompt,
    llm_calls w' = (llm_calls w
                    ++ [{| call_prompt := prompt;
                           call_reply := Ok (compressed_context st') |}])%list
    /\ contains prompt "(<200 words)"
    /\ contains prompt (context st)
    /\ st' = set_compressed_context st (compressed_context st')
    /\ context st' = context st.
Proof.
  intros [H|H].
  - rewrite compress_context_node_eq in H.
    destruct (llm_call_log (compress_prompt (context st)) w) as (Hlog & _ & _).
    destruct (llm_call (compress_prompt (context st)) w) as [[compressed|e] w1];
      [|discriminate].
    destruct (save_context (context st) compressed (ext w1)) as [[[]|e] x];
      [|discriminate].
    inversion H; subst. cbn in *.
    exists (compress_prompt (context st)). repeat split; try assumption.
    + apply contains_compress_prompt_limit.
    + apply contains_compress_prompt_context.
  - pose proof (enhanced_compress_context_node_returns st w) as Hnode.
    rewrite H in Hnode. destruct Hnode as (eps & compressed & -> & Hlog).
    cbn. eexists. split; [exact Hlog|]. repeat split.
    + apply contains_enhanced_compress_prompt_limit.
    + apply contains_enhanced_compress_prompt_context.
Qed.

Lemma compressed_compress_1 (st : AgentState) (w : World) :
  advance create_sequential_compressed_graph (Running "compress_1" st, w)
  = continue_with (compress_context_node st w) st (Running "agent_1").
Proof. reflexivity. Qed.

Lemma compressed_compress_2 (st : AgentState) (w : World) :
  advance create_sequential_compressed_graph (Running "compress_2" st, w)
  = continue_with (compress_context_node st w) st (Running "agent_2").
Proof. reflexivity. Qed.

Lemma compressed_compress_final (st : AgentState) (w : World) :
  advance create_sequential_compressed_graph (Running "compress_final" st, w)
  = continue_with (compress_context_node st w) st (Running "merger").
Proof. reflexivity. Qed.

Lemma compressed_path_run (st0 : AgentState) (w0 : World) (n : nat)
      (name : string) (st : AgentState) (w : World) :
  run_steps create_sequential_compressed_graph n st0 w0 = (Running name st, w) ->
  nth_error compressed_path n = Some name.
Proof.
  revert name st w. induction n as [|n IH]; intros name st w Hrun.
  - inversion Hrun. reflexivity.
  - rewrite run_steps_S in Hrun.
    destruct (run_steps create_sequential_compressed_graph n st0 w0)
      as [[name' st'|st'|e|i st'] w']; try discriminate Hrun.
    specialize (IH name' st' w' eq_refl).
    do 7 (destruct n as [|n];
          [ cbn in IH; inversion IH; subst name'; cbn in Hrun;
            match type of Hrun with
            | (let (_, _) := ?m in _) = _ =>
                destruct m as [[?|?|?] ?]; inversion Hrun; reflexivity
            end
          | ]).
    destruct n; discriminate IH.
Qed.

Lemma run_steps_then_terminal (g : StateGraph) (st0 : AgentState) (w0 : World)
      (n : nat) (s : status) (w : World) (c : status * World) :
  run_steps g n st0 w0 = (s, w) -> advance g (s, w) = c -> terminal (fst c) ->
  n < recursion_limit ->
  invoke g st0 w0 = c.
Proof.
  intros Hrun Hadv Hterm Hn. destruct c as [s' w'].
  apply (invoke_terminal g st0 w0 (S n)); [|exact Hterm|lia].
  now rewrite run_steps_S, Hrun.
Qed.

Lemma compress_context_node_calls (st : AgentState) (w : World) :
  llm_calls (snd (compress_context_node st w))
  = (llm_calls w
     ++ [{| call_prompt := compress_prompt (context st);
            call_reply := fst (llm_call (compress_prompt (context st)) w) |}])%list.
Proof.
  rewrite compress_context_node_eq.
  destruct (llm_call_log (compress_prompt (context st)) w) as (Hlog & _ & _).
  destruct (llm_call (compress_prompt (context st)) w) as [[compressed|e] w1];
    cbn in *; [|exact Hlog].
  now destruct (save_context (context st) compressed (ext w1)) as [[[]|e] x].
Qed.

(** C7, amended.  A compression node calls the compressor every time it
    runs, whatever the length of the context, and the compressed graph
    runs such a node at three fixed places: before agent 1, before
    agent 2 and before the merger.  A compression step that returns has
    changed [compressed_context] only: results, subtask list, task,
    context and the memory manager are as before. *)
Theorem compression_unconditional_and_framed (st : AgentState) (w : World) :
  (exists reply,
      llm_calls (snd (compress_context_node st w))
      = (llm_calls w ++ [{| call_prompt := compress_prompt (context st);
                            call_reply := reply |}])%list)
  /\ advance create_sequential_compressed_graph (Running "compress_1" st, w)
     = continue_with (compress_context_node st w) st (Running "agent_1")
  /\ advance create_sequential_compressed_graph (Running "compress_2" st, w)
     = continue_with (compress_context_node st w) st (Running "agent_2")
  /\ advance create_sequential_compressed_graph (Running "compress_final" st, w)
     = continue_with (compress_context_node st w) st (Running "merger")
  /\ (forall st',
        fst (compress_context_node st w) = Returns st' ->
        st' = set_compressed_context st (compressed_context st')
        /\ sub_results st' = sub_results st
        /\ subtasks st' = subtasks st
        /\ task st' = task st
        /\ context st' = context st
        /\ memory_manager (snd (compress_context_node st w)) = memory_manager w).
Proof.
  split; [eexists; apply compress_context_node_calls|].
  do 3 (split; [reflexivity|]).
  intros st'. rewrite compress_context_node_eq.
  destruct (llm_call_log (compress_prompt (context st)) w) as (_ & Hmm & _).
  destruct (llm_call (compress_prompt (context st)) w) as [[compressed|e] w1];
    [|discriminate].
  destruct (save_context (context st) compressed (ext w1)) as [[[]|e] x];
    [|discriminate].
  cbn in *. intros H. inversion H; subst. cbn. auto 10.
Qed.

(** C8, amended.  When the compressor's call to the language model fails
    at a compression node of the compressed graph, the node raises that
    exception (there is no fallback), and the run ends there with the
    exception: no later node runs and the run is not completed. *)
Theorem compression_failure_ends_run
        (task0 : string) (w0 : World) (n : nat) (name : string)
        (st : AgentState) (w : World) (e : exn) :
  run_steps create_sequential_compressed_graph n (initial_state task0) w0
  = (Running name st, w) ->
  In name ["compress_1"; "compress_2"; "compress_final"] ->
  fst (llm_call (compress_prompt (context st)) w) = Raise e ->
  compress_context_node st w
  = (Raises e, snd (llm_call (compress_prompt (context st)) w))
  /\ invoke create_sequential_compressed_graph (initial_state task0) w0
     = (Crashed e, snd (llm_call (compress_prompt (context st)) w)).
Proof.
  intros Hrun Hname Hfail.
  assert (Hnode : compress_context_node st w
                  = (Raises e, snd (llm_call (compress_prompt (context st)) w))).
  { rewrite compress_context_node_eq.
    destruct (llm_call (compress_prompt (context st)) w) as [[compressed|e'] w1];
      cbn in *; congruence. }
  split; [exact Hnode|].
  pose proof (compressed_path_run _ _ _ _ _ _ Hrun) as Hpath.
  assert (Hn : n < recursion_limit).
  { assert (n < List.length compressed_path)
      by (apply nth_error_Some; congruence).
    cbn in *. unfold recursion_limit. lia. }
  apply (run_steps_then_terminal _ _ _ n _ _ _ Hrun); [|exact I|exact Hn].
  cbn in Hname.
  destruct Hname as [<-|[<-|[<-|[]]]].
  - now rewrite compressed_compress_1, Hnode.
  - now rewrite compressed_compress_2, Hnode.
  - now rewrite compressed_compress_final, Hnode.
Qed.

End Compression.

(** C6, on a scripted run: the reply "s" becomes the compressed context. *)
Lemma compressed_context_is_the_reply_witness :
  exists prompt,
    contains prompt "(<200 words)" /\ contains prompt "ctx".
Proof.
  edestruct (@compressed_context_is_the_reply Scripted.caps Scripted.helpers
               (set_context (Scripted.fresh "t") "ctx")
               (Scripted.world [Ok "s"] []))
    as (prompt & _ & H1 & H2 & _).
  { left. vm_compute. reflexivity. }
  exists prompt. split; [exact H1|exact H2].
Defined.

(** C6 as stated fails: on the empty context of a fresh run the model
    answers with 1201 characters, and these become the compressed context:
    longer than the input and longer than 1200 characters. *)
Lemma compression_can_lengthen :
  exists st' w',
    compress_context_node
      (Scripted.fresh "t")
      (Scripted.world [Ok (string_of_list_ascii (repeat "x"%char 1201))] [])
    = (Returns st', w')
    /\ len (context (Scripted.fresh "t")) = 0
    /\ len (compressed_context st') = 1201
    /\ ~ len (compressed_context st') <= len (context (Scripted.fresh "t"))
    /\ ~ len (compressed_context st') <= 1200.
Proof.
  eexists. eexists. split; [vm_compute; reflexivity|].
  match goal with
  | |- _ /\ ?n = 1201 /\ _ => assert (Hlen : n = 1201) by (vm_compute; reflexivity)
  end.
  rewrite Hlen. cbn. repeat split; lia.
Qed.

(** C7, on a scripted run. *)
Lemma compression_unconditional_and_framed_witness :
  sub_results (set_compressed_context (Scripted.fresh "t") "s")
  = sub_results (Scripted.fresh "t").
Proof.
  destruct (@compression_unconditional_and_framed Scripted.caps Scripted.helpers
              (Scripted.fresh "t") (Scripted.world [Ok "s"] []))
    as (_ & _ & _ & _ & H).
  destruct (H (set_compressed_context (Scripted.fresh "t") "s") eq_refl)
    as (_ & Hres & _).
  exact Hres.
Defined.

(** C7 as stated fails: in a fresh run the context is empty when the first
    compression node is reached, far below 2000 characters, and the node
    calls the compressor all the same. *)
Lemma compressor_runs_below_threshold :
  exists st1 w1 st2 w2,
    run_steps (@create_sequential_compressed_graph Scripted.caps Scripted.helpers) 1
              (initial_state "t") (Scripted.world [Ok "s"] ["a"; "b"])
    = (Running "compress_1" st1, w1)
    /\ len (context st1) = 0
    /\ ~ 2000 < len (context st1)
    /\ llm_calls w1 = []
    /\ run_steps (@create_sequential_compressed_graph Scripted.caps Scripted.helpers) 2
                 (initial_state "t") (Scripted.world [Ok "s"] ["a"; "b"])
       = (Running "agent_1" st2, w2)
    /\ llm_calls w2 = [{| call_prompt := compress_prompt "";
                          call_reply := Ok "s" |}]
    /\ compressed_context st2 = "s".
Proof.
  do 4 eexists.
  split; [lazy; reflexivity|].
  split; [reflexivity|]. split; [cbn; lia|]. split; [reflexivity|].
  split; [lazy; reflexivity|]. split; reflexivity.
Qed.

(** C8, on a scripted run: the first compression call fails. *)
Lemma compression_failure_ends_run_witness :
  exists w,
    invoke (@create_sequential_compressed_graph Scripted.caps Scripted.helpers)
           (initial_state "t") (Scripted.world [Raise ModelError] ["a"; "b"])
    = (Crashed ModelError, w).
Proof.
  edestruct (@compression_failure_ends_run Scripted.caps Scripted.helpers
               "t" (Scripted.world [Raise ModelError] ["a"; "b"]) 1 "compress_1")
    as [_ H].
  - lazy. reflexivity.
  - simpl. auto.
  - reflexivity.
  - eexists. exact H.
Defined.

(** C8 as stated fails: the compressor fails at the first compression node
    and the run ends with that exception instead of completing. *)
Lemma compression_failure_aborts_run :
  exists w,
    invoke (@create_sequential_compressed_graph Scripted.caps Scripted.helpers)
           (initial_state "t") (Scripted.world [Raise ModelError] ["a"; "b"])
    = (Crashed ModelError, w)
    /\ forall st w',
        invoke (@create_sequential_compressed_graph Scripted.caps Scripted.helpers)
               (initial_state "t") (Scripted.world [Raise ModelError] ["a"; "b"])
        <> (Done st, w').
Proof.
  eexists. split; [vm_compute; reflexivity|].
  intros st w'. vm_compute. discriminate.
Qed.


(** ** Recovery *)
Section Recovery.
Context {caps : Capabilities} {helpers : Helpers}.











End Recovery.



(** ** The enhanced sequential graph *)
Section EnhancedGraph.
Context {caps : Capabilities} {helpers : Helpers}.












End EnhancedGraph.


(** * More properties of the source *)

(** ** The results dict *)

Lemma dict_get_set_same {V : Type} (d : dict V) (k : string) (v : V) :
  dict_get (dict_set d k v) k = Some v.
Proof.
  induction d as [|[k' v'] d IH]; cbn.
  - now rewrite String.eqb_refl.
  - destruct (String.eqb k' k) eqn:Hk; cbn; rewrite Hk; [reflexivity|exact IH].
Qed.

Lemma dict_get_set_other {V : Type} (d : dict V) (k k0 : string) (v : V) :
  k0 <> k -> dict_get (dict_set d k v) k0 = dict_get d k0.
Proof.
  intros Hneq. induction d as [|[k' v'] d IH]; cbn.
  - destruct (String.eqb_spec k k0); [congruence|reflexivity].
  - destruct (String.eqb_spec k' k) as [->|Hk]; cbn.
    + destruct (String.eqb_spec k k0); [congruence|reflexivity].
    + destruct (String.eqb_spec k' k0); [reflexivity|exact IH].
Qed.

Lemma keys_dict_set_present {V : Type} (d : dict V) (k : string) (v : V) :
  In k (keys d) -> keys (dict_set d k v) = keys d.
Proof.
  induction d as [|[k' v'] d IH]; cbn; [tauto|].
  intros Hin. destruct (String.eqb_spec k' k) as [->|Hk]; cbn; [reflexivity|].
  f_equal. apply IH. destruct Hin; [congruence|assumption].
Qed.

Lemma keys_dict_set_absent {V : Type} (d : dict V) (k : string) (v : V) :
  ~ In k (keys d) -> keys (dict_set d k v) = (keys d ++ [k])%list.
Proof.
  induction d as [|[k' v'] d IH]; cbn; [reflexivity|].
  intros Hnotin. destruct (String.eqb_spec k' k) as [->|Hk]; cbn; [tauto|].
  f_equal. apply IH. tauto.
Qed.

Lemma keys_dict_set_in {V : Type} (d : dict V) (k k0 : string) (v : V) :
  In k0 (keys (dict_set d k v)) <-> k0 = k \/ In k0 (keys d).
Proof.
  destruct (in_dec string_dec k (keys d)) as [Hin|Hnotin].
  - rewrite keys_dict_set_present by assumption.
    split; [tauto|]. intros [->|H]; assumption.
  - rewrite keys_dict_set_absent by assumption.
    rewrite in_app_iff. cbn. split; intros H; intuition congruence.
Qed.

Lemma NoDup_keys_dict_set {V : Type} (d : dict V) (k : string) (v : V) :
  NoDup (keys d) -> NoDup (keys (dict_set d k v)).
Proof.
  intros Hd. destruct (in_dec string_dec k (keys d)) as [Hin|Hnotin].
  - now rewrite keys_dict_set_present.
  - rewrite keys_dict_set_absent by assumption.
    apply NoDup_app; [assumption|repeat constructor; cbn; tauto|].
    intros x Hx [<-|[]]. contradiction.
Qed.

(** ** Agent ids and subtasks *)





Lemma int_digits_of_uint (d : Decimal.uint) (acc : nat) :
  int_digits (Z.of_nat acc) (NilEmpty.string_of_uint d)
  = Some (Z.of_nat (Nat.of_uint_acc d acc)).
Proof.
  revert acc. induction d; intros acc; cbn [NilEmpty.string_of_uint int_digits Nat.of_uint_acc];
    [reflexivity|..];
    match goal with
    | |- context [digit_of ?c] =>
        let v := eval vm_compute in (digit_of c) in
        change (digit_of c) with v; cbv iota
    end;
    rewrite <- IHd; f_equal; rewrite Nat.tail_mul_spec; lia.
Qed.

(** Python's [int(str(n))] is [n]. *)
Lemma int_of_decimal (n : nat) :
  int (NilEmpty.string_of_uint (Nat.to_uint n)) = Ok (Z.of_nat n).
Proof.
  pose proof (int_digits_of_uint (Nat.to_uint n) 0) as H.
  change (Nat.of_uint_acc (Nat.to_uint n) 0) with (Nat.of_uint (Nat.to_uint n)) in H.
  rewrite DecimalNat.Unsigned.of_to in H. cbn [Z.of_nat] in H.
  unfold int.
  destruct (NilEmpty.string_of_uint (Nat.to_uint n)) as [|c s] eqn:Hs.
  - exfalso. destruct (Nat.to_uint n) eqn:Hd; try discriminate Hs.
    assert (Hn : Nat.of_uint (Nat.to_uint n) = 0) by now rewrite Hd.
    rewrite DecimalNat.Unsigned.of_to in Hn. subst n. discriminate Hd.
  - now rewrite H.
Qed.

Section AgentIds.
Context {caps : Capabilities} {helpers : Helpers}.


(** X2.  The id of a planned subtask, its position counted from 1 and
    written in decimal, reads that subtask back: [int] undoes the decimal
    writing and the agent node with that id is handed the subtask at that
    position. *)
Theorem planned_id_reads_own_subtask (st : AgentState) (i : nat) (t : string) :
  nth_error (subtasks st) i = Some t ->
  exists agent_id,
    nth_error (subtask_ids (subtasks st)) i = Some agent_id
    /\ int agent_id = Ok (Z.of_nat (S i))
    /\ subtask_of st agent_id = Ok t.
Proof.
  intros Hnth.
  assert (Hlt : i < List.length (subtasks st))
    by (apply nth_error_Some; congruence).
  exists (NilEmpty.string_of_uint (Nat.to_uint (S i))).
  split; [|split].
  - unfold subtask_ids. rewrite nth_error_map, nth_error_seq.
    destruct (Nat.ltb_spec i (List.length (subtasks st))); [reflexivity|lia].
  - apply int_of_decimal.
  - unfold subtask_of. rewrite int_of_decimal, getitem_nonneg by lia.
    replace (Z.to_nat (Z.of_nat (S i) - 1)) with i by lia.
    now rewrite Hnth.
Qed.

End AgentIds.

(** X2, on a plan of two subtasks: the second id is "2" and reads "b". *)
Lemma planned_id_reads_own_subtask_witness :
  exists agent_id,
    nth_error (subtask_ids ["a"; "b"]) 1 = Some agent_id
    /\ subtask_of (planned_state (caps := Scripted.caps) "t" ["a"; "b"]) agent_id
       = Ok "b".
Proof.
  destruct (@planned_id_reads_own_subtask Scripted.caps
              (planned_state "t" ["a"; "b"]) 1 "b" eq_refl)
    as (agent_id & H1 & _ & H2).
  exists agent_id. split; [exact H1|exact H2].
Defined.

(** ** What every node does *)
Section NodeSteps.
Context {caps : Capabilities} {helpers : Helpers}.

Lemma extends_refl {A : Type} (l : list A) : extends l l.
Proof. exists []. now rewrite app_nil_r. Qed.

Lemma manager_kept_refl (m : AdvancedMemoryManager.t) : manager_kept m m.
Proof. unfold manager_kept. repeat split; auto using extends_refl. Qed.

Lemma manager_kept_add_episode
      (m m' : AdvancedMemoryManager.t) (d : episode_data) (x x' : Ext) :
  AdvancedMemoryManager.add_episode m d x = (Ok m', x') -> manager_kept m m'.
Proof.
  intros Hadd. destruct (add_episode_inv _ _ _ _ _ Hadd) as (t0 & v & Hm').
  unfold manager_kept. rewrite Hm' at 1 2 3.
  cbn [AdvancedMemoryManager.episodic_memory AdvancedMemoryManager.semantic_memory].
  repeat split.
  - eexists. reflexivity.
  - rewrite length_app. cbn. lia.
  - intros Hreach.
    exact (AdvancedMemoryManager.reachable_add_episode _ _ _ _ _ Hreach Hadd).
Qed.

(** Destructs the calls a node makes, one after the other. *)
Ltac node_cases :=
  repeat (cbn [ext set_ext memory_manager set_memory_manager llm_calls fst snd];
          match goal with
          | |- context [match ?x with _ => _ end] =>
              lazymatch x with
              | context [match _ with _ => _ end] => fail
              | _ => destruct x eqn:?
              end
          end).

Ltac node_done :=
  cbn [ext set_ext memory_manager set_memory_manager llm_calls fst snd];
  split;
  [ first [ apply manager_kept_refl
          | eapply manager_kept_add_episode; eassumption ]
  | first [ exact I
          | eexists; eexists; eexists; repeat split;
            first [ reflexivity | eassumption ]
          | split; [reflexivity|]; first [ left; reflexivity
                                         | right; eexists; reflexivity ] ] ].

Lemma agent_node_step (f : AgentState -> string -> M AgentState)
      (st : AgentState) (agent_id : string) (w : World) :
  agent_node f -> agent_step st agent_id w (f st agent_id w).
Proof.
  intros [| | | |];
    unfold agent_step, sub_agent_node, sequential_agent_node,
      enhanced_sequential_agent_node, compressed_agent_node,
      enhanced_compressed_agent_node, bind, pure, call, chain_run, llm_call, now,
      memory_manager_retrieve_relevant_episodes, memory_manager_add_episode,
      AdvancedMemoryManager.retrieve_relevant_episodes, ret, episodes_of, outcome_of;
    node_cases; node_done.
Qed.

(** X3.  An agent node that returns (any of the five agent nodes of the
    source) has made exactly one call to the language model and written
    its reply under its own agent id: looking the id up gives that reply,
    every other entry of the results is as before, a new id goes last and
    an id already present keeps its place, its earlier result overwritten.
    The subtask list and the task are untouched. *)
Theorem agent_node_records_reply
        (f : AgentState -> string -> M AgentState)
        (st : AgentState) (agent_id : string) (w : World)
        (st' : AgentState) (w' : World) :
  agent_node f ->
  f st agent_id w = (Returns st', w') ->
  exists prompt reply,
    llm_calls w'
    = (llm_calls w ++ [{| call_prompt := prompt; call_reply := Ok reply |}])%list
    /\ dict_get (sub_results st') agent_id = Some reply
    /\ (forall k, k <> agent_id ->
                  dict_get (sub_results st') k = dict_get (sub_results st) k)
    /\ (In agent_id (keys (sub_results st)) ->
        keys (sub_results st') = keys (sub_results st))
    /\ (~ In agent_id (keys (sub_results st)) ->
        keys (sub_results st') = (keys (sub_results st) ++ [agent_id])%list)
    /\ subtasks st' = subtasks st
    /\ task st' = task st.
Proof.
  intros Hf Hrun. pose proof (agent_node_step f st agent_id w Hf) as [_ Hstep].
  rewrite Hrun in Hstep. cbn [fst snd] in Hstep.
  destruct Hstep as (prompt & reply & t & Hcalls & Hres & Hsub & Htask & _).
  exists prompt, reply. rewrite Hres.
  split; [exact Hcalls|]. split; [apply dict_get_set_same|].
  split; [intros k Hk; now apply dict_get_set_other|].
  split; [apply keys_dict_set_present|].
  split; [apply keys_dict_set_absent|]. auto.
Qed.

(** X4.  No node that the source defines removes or changes a stored
    episode or touches the semantic memory, whatever its outcome: it
    appends at most one episode, and a manager built by [__init__] and
    the methods of the class stays one, so that the ids of the stored
    episodes remain 0, 1, 2, ... in order. *)
Theorem source_node_keeps_manager (f : node_fn) (st : AgentState) (w : World) :
  source_node f ->
  manager_kept (memory_manager w) (memory_manager (snd (f st w)))
  /\ (AdvancedMemoryManager.reachable (memory_manager w) ->
      AdvancedMemoryManager.ids_consecutive (memory_manager (snd (f st w)))).
Proof.
  intros Hf.
  assert (Hkept : manager_kept (memory_manager w) (memory_manager (snd (f st w)))).
  { destruct Hf as [f agent_id Hf| | |].
    - exact (proj1 (agent_node_step f st agent_id w Hf)).
    - destruct (consolidate_memory_node_keeps_manager st w) as [-> _].
      apply manager_kept_refl.
    - rewrite compress_context_node_eq.
      destruct (llm_call_log (compress_prompt (context st)) w) as (_ & Hmm & _).
      destruct (llm_call (compress_prompt (context st)) w) as [[c|e] w1];
        cbn [fst snd] in *.
      + destruct (save_context (context st) c (ext w1)) as [[[]|e] x];
          cbn [snd set_ext memory_manager]; rewrite Hmm; apply manager_kept_refl.
      + rewrite Hmm. apply manager_kept_refl.
    - unfold enhanced_compress_context_node, bind, chain_run, llm_call, now,
        memory_manager_retrieve_relevant_episodes, memory_manager_add_episode,
        AdvancedMemoryManager.retrieve_relevant_episodes, ret, outcome_of.
      node_cases;
        cbn [ext set_ext memory_manager set_memory_manager llm_calls fst snd];
        first [ apply manager_kept_refl
              | eapply manager_kept_add_episode; eassumption ]. }
  split; [exact Hkept|].
  intros Hreach. apply reachable_ids_consecutive.
  destruct Hkept as (_ & _ & _ & Hkeep). exact (Hkeep Hreach).
Qed.

Ltac node_unfold :=
  unfold sub_agent_node, sequential_agent_node,
    enhanced_sequential_agent_node, compressed_agent_node,
    enhanced_compressed_agent_node, enhanced_compress_context_node,
    bind, pure, call, chain_run, llm_call, now,
    memory_manager_retrieve_relevant_episodes, memory_manager_add_episode,
    AdvancedMemoryManager.retrieve_relevant_episodes,
    AdvancedMemoryManager.add_episode, ret, episodes_of, outcome_of.

(** X5.  The two agent nodes that keep episodes record result and episode
    together or not at all.  When the node returns, exactly one episode
    has been appended; its id is the number of episodes stored before, and
    it holds the agent id, the subtask that was read and the very reply
    that is now in the results under the agent id.  When the node raises
    (bad id, embedding, semantic lookup, model, or the embedding inside
    [add_episode]) no episode has been appended. *)
Theorem enhanced_agents_store_episode_with_result
        (st : AgentState) (agent_id : string) (w : World) :
  episode_with_result st agent_id w (enhanced_sequential_agent_node st agent_id w)
  /\ episode_with_result st agent_id w (enhanced_compressed_agent_node st agent_id w).
Proof.
  split; unfold episode_with_result; node_unfold; node_cases;
    cbn [ext set_ext memory_manager set_memory_manager llm_calls fst snd
         AdvancedMemoryManager.episodic_memory];
    first [ reflexivity
          | eexists; eexists; eexists; repeat split;
            first [ reflexivity | eassumption | apply dict_get_set_same ] ].
Qed.

(** X6.  [enhanced_compress_context_node] keeps a record of every
    compression it completes: when it returns, one episode has been
    appended, with the next id, of type "compression", holding the context
    that was compressed and the compressed text now in the state; the
    context itself and the results are untouched.  When it raises, no
    episode has been appended. *)
Theorem enhanced_compression_is_recorded (st : AgentState) (w : World) :
  match fst (enhanced_compress_context_node st w) with
  | Returns st' =>
      exists e,
        episodes_of (snd (enhanced_compress_context_node st w))
        = (episodes_of w ++ [e])%list
        /\ Episode.id e = List.length (episodes_of w)
        /\ episode_text e "type" = Some "compression"
        /\ episode_text e "original_context" = Some (context st)
        /\ episode_text e "compressed_context" = Some (compressed_context st')
        /\ context st' = context st
        /\ sub_results st' = sub_results st
  | Raises _ =>
      episodes_of (snd (enhanced_compress_context_node st w)) = episodes_of w
  | Escalates _ => False
  end.
Proof.
  node_unfold; node_cases;
    cbn [ext set_ext memory_manager set_memory_manager llm_calls fst snd
         AdvancedMemoryManager.episodic_memory];
    first [ reflexivity | eexists; repeat split; reflexivity ].
Qed.

Lemma subtask_of_subtasks (st1 st2 : AgentState) (agent_id : string) :
  subtasks st1 = subtasks st2 -> subtask_of st1 agent_id = subtask_of st2 agent_id.
Proof. intros H. unfold subtask_of. now rewrite H. Qed.

(** X7.  An agent of the parallel pattern works in isolation: its prompt
    and its outcome depend on its id and the subtask list alone.  From two
    states with the same subtasks, whatever their context and earlier
    results, [sub_agent_node] makes the same call, leaves the same world
    behind and either writes the same reply in both or raises the same
    exception in both. *)
Theorem sub_agent_node_isolated
        (st1 st2 : AgentState) (agent_id : string) (w : World) :
  subtasks st1 = subtasks st2 ->
  snd (sub_agent_node st1 agent_id w) = snd (sub_agent_node st2 agent_id w)
  /\ match fst (sub_agent_node st1 agent_id w),
           fst (sub_agent_node st2 agent_id w) with
     | Returns st1', Returns st2' =>
         exists reply, st1' = set_sub_result st1 agent_id reply
                       /\ st2' = set_sub_result st2 agent_id reply
     | Raises e1, Raises e2 => e1 = e2
     | _, _ => False
     end.
Proof.
  intros Hsub. node_unfold.
  rewrite (subtask_of_subtasks st1 st2 agent_id Hsub).
  node_cases; cbn [fst snd]; split;
    first [ reflexivity | eexists; split; reflexivity ].
Qed.

(** X8.  An agent of the compressed pattern never reads the full context
    or the earlier results: from two states with the same subtasks and the
    same compressed context, [compressed_agent_node] makes the same calls,
    leaves the same world behind and either writes the same reply in both
    or raises the same exception in both. *)
Theorem compressed_agent_node_reads_compressed_only
        (st1 st2 : AgentState) (agent_id : string) (w : World) :
  subtasks st1 = subtasks st2 ->
  compressed_context st1 = compressed_context st2 ->
  snd (compressed_agent_node st1 agent_id w)
  = snd (compressed_agent_node st2 agent_id w)
  /\ match fst (compressed_agent_node st1 agent_id w),
           fst (compressed_agent_node st2 agent_id w) with
     | Returns st1', Returns st2' =>
         exists reply, st1' = set_sub_result st1 agent_id reply
                       /\ st2' = set_sub_result st2 agent_id reply
     | Raises e1, Raises e2 => e1 = e2
     | _, _ => False
     end.
Proof.
  intros Hsub Hcmp. node_unfold.
  rewrite (subtask_of_subtasks st1 st2 agent_id Hsub), Hcmp.
  node_cases; cbn [fst snd]; split;
    first [ reflexivity | eexists; split; reflexivity ].
Qed.

(** X9.  The router of the parallel graph counts results, it does not look
    at who wrote them.  Starting from no results, when two agents' writes
    are applied one after the other (in either order), the route after the
    first is "wait", which leads to END; the route after the second is
    "merge", which leads to the merger, exactly when the two ids differ. *)
Theorem route_after_two_agents
        (st : AgentState) (id1 id2 : string) (w : World)
        (st1 : AgentState) (w1 : World) (st2 : AgentState) (w2 : World) :
  sub_results st = [] ->
  sub_agent_node st id1 w = (Returns st1, w1) ->
  sub_agent_node st1 id2 w1 = (Returns st2, w2) ->
  route_after_agent st1 = "wait"
  /\ dict_get route_targets (route_after_agent st1) = Some END
  /\ (route_after_agent st2 = "merge" <-> id1 <> id2)
  /\ (id1 <> id2 ->
      dict_get route_targets (route_after_agent st2) = Some "merger").
Proof.
  intros Hempty Hrun1 Hrun2.
  pose proof (agent_node_step _ st id1 w is_sub_agent_node) as [_ Hstep1].
  pose proof (agent_node_step _ st1 id2 w1 is_sub_agent_node) as [_ Hstep2].
  rewrite Hrun1 in Hstep1. rewrite Hrun2 in Hstep2. cbn [fst snd] in *.
  destruct Hstep1 as (p1 & r1 & t1 & _ & Hres1 & _).
  destruct Hstep2 as (p2 & r2 & t2 & _ & Hres2 & _).
  rewrite Hempty in Hres1. cbn [dict_set] in Hres1.
  rewrite Hres1 in Hres2. cbn [dict_set] in Hres2.
  unfold route_after_agent. rewrite Hres1, Hres2.
  destruct (String.eqb_spec id1 id2) as [Heq|Hneq]; cbn.
  - repeat split; try reflexivity; try discriminate; intros; congruence.
  - repeat split; try reflexivity; intros; congruence.
Qed.



Lemma render_results_dict_set_absent (d : dict string) (k v : string) :
  ~ In k (keys d) ->
  render_results (dict_set d k v) = render_results d ++ agent_line k v.
Proof.
  induction d as [|[k' v'] d IH]; cbn [dict_set render_results keys map fst].
  - intros _. now rewrite append_nil_r.
  - intros Hnotin. destruct (String.eqb_spec k' k) as [->|Hk].
    + exfalso. apply Hnotin. now left.
    + cbn [render_results]. rewrite IH, append_assoc; [reflexivity|].
      intros Hin. apply Hnotin. now right.
Qed.

(** X12.  In the sequential patterns the context is the transcript of the
    results.  If the context is some text followed by one line
    "[Agent id]: result" per entry of the results, in order, then after
    [sequential_agent_node] or [enhanced_sequential_agent_node] returns
    for an id that has no result yet it is so again: the new line is the
    very reply stored in the results. *)
Theorem context_is_transcript_of_results
        (f : AgentState -> string -> M AgentState)
        (st : AgentState) (agent_id : string) (w : World)
        (st' : AgentState) (w' : World) (base : string) :
  f = sequential_agent_node \/ f = enhanced_sequential_agent_node ->
  f st agent_id w = (Returns st', w') ->
  ~ In agent_id (keys (sub_results st)) ->
  context st = base ++ render_results (sub_results st) ->
  context st' = base ++ render_results (sub_results st').
Proof.
  intros Hf Hrun Hfresh Hctx.
  assert (Hstep : exists reply,
             sub_results st' = dict_set (sub_results st) agent_id reply
             /\ context st' = context st ++ agent_line agent_id reply).
  { revert Hrun. destruct Hf as [-> | ->]; node_unfold; node_cases;
      intros Hrun; inversion Hrun; eexists; split; reflexivity. }
  destruct Hstep as (reply & -> & ->).
  rewrite render_results_dict_set_absent by assumption.
  now rewrite Hctx, append_assoc.
Qed.

(** X13.  No agent node of the source retries or swallows an error: a run
    of the node calls the language model at most once.  Either it raises
    before any call; or the one call raises and the node raises the same
    exception; or the one call replies, and then the node returns with
    that reply under its id, unless it is one of the two nodes that keep
    episodes and storing the episode fails, in which case the node raises
    and the reply is dropped. *)
Theorem agent_node_calls_model_at_most_once
        (f : AgentState -> string -> M AgentState)
        (st : AgentState) (agent_id : string) (w : World) :
  agent_node f ->
  (llm_calls (snd (f st agent_id w)) = llm_calls w
   /\ exists e, fst (f st agent_id w) = Raises e)
  \/ (exists prompt e,
         llm_calls (snd (f st agent_id w))
         = (llm_calls w ++ [{| call_prompt := prompt; call_reply := Raise e |}])%list
         /\ fst (f st agent_id w) = Raises e)
  \/ (exists prompt reply,
         llm_calls (snd (f st agent_id w))
         = (llm_calls w ++ [{| call_prompt := prompt; call_reply := Ok reply |}])%list
         /\ ((exists st', fst (f st agent_id w) = Returns st'
                          /\ dict_get (sub_results st') agent_id = Some reply)
             \/ (exists e, fst (f st agent_id w) = Raises e
                           /\ (f = enhanced_sequential_agent_node
                               \/ f = enhanced_compressed_agent_node)))).
Proof.
  intros [| | | |]; node_unfold; node_cases;
    cbn [ext set_ext memory_manager set_memory_manager llm_calls fst snd];
    first
      [ left; split; [reflexivity | eexists; reflexivity]
      | right; left; eexists; eexists; split; reflexivity
      | right; right; eexists; eexists; split; [reflexivity|];
        first [ left; eexists; split; [reflexivity | apply dict_get_set_same]
              | right; eexists; split;
                [reflexivity | first [left; reflexivity | right; reflexivity]] ] ].
Qed.

End NodeSteps.

(** X3, on a scripted call: agent "1" returns and its reply is found
    under "1". *)
Lemma agent_node_records_reply_witness :
  exists st' w' reply,
    @sequential_agent_node Scripted.caps
      (planned_state "t" ["a"]) "1" (Scripted.world [Ok "r"] []) = (Returns st', w')
    /\ dict_get (sub_results st') "1" = Some reply.
Proof.
  edestruct (@agent_node_records_reply Scripted.caps Scripted.helpers
               sequential_agent_node (planned_state "t" ["a"]) "1"
               (Scripted.world [Ok "r"] []))
    as (prompt & reply & _ & Hget & _);
    [ constructor | vm_compute; reflexivity | ].
  eexists _, _, reply. split; [vm_compute; reflexivity | exact Hget].
Defined.

(** X4, on a scripted call of the enhanced compression node from a fresh
    manager: the single episode stored has id 0. *)
Lemma source_node_keeps_manager_witness :
  AdvancedMemoryManager.ids_consecutive
    (memory_manager
       (snd (@enhanced_compress_context_node Scripted.caps Scripted.helpers
               (Scripted.fresh "t") (Scripted.world [Ok "s"] [])))).
Proof.
  apply (@source_node_keeps_manager Scripted.caps Scripted.helpers).
  - apply source_enhanced_compress_context_node.
  - apply AdvancedMemoryManager.reachable_init.
Defined.

(** X7, on two states that differ in context and results. *)
Lemma sub_agent_node_isolated_witness :
  snd (@sub_agent_node Scripted.caps (planned_state "t" ["a"]) "1"
         (Scripted.world [Ok "r"] []))
  = snd (@sub_agent_node Scripted.caps
           (set_context (set_sub_result (planned_state "t" ["a"]) "2" "x") "earlier")
           "1" (Scripted.world [Ok "r"] [])).
Proof.
  refine (proj1 (@sub_agent_node_isolated Scripted.caps _ _ "1" _ _)).
  reflexivity.
Defined.

(** X8, on two states that differ in context and results. *)
Lemma compressed_agent_node_reads_compressed_only_witness :
  snd (@compressed_agent_node Scripted.caps (planned_state "t" ["a"]) "1"
         (Scripted.world [Ok "r"] []))
  = snd (@compressed_agent_node Scripted.caps
           (set_context (set_sub_result (planned_state "t" ["a"]) "2" "x") "earlier")
           "1" (Scripted.world [Ok "r"] [])).
Proof.
  refine (proj1 (@compressed_agent_node_reads_compressed_only
                   Scripted.caps _ _ "1" _ _ _)); reflexivity.
Defined.

(** X9, on the scripted agents "1" and "2". *)
Lemma route_after_two_agents_witness :
  exists st1 w1 st2 w2,
    @sub_agent_node Scripted.caps (planned_state "t" ["a"; "b"]) "1"
      (Scripted.world [Ok "r1"; Ok "r2"] []) = (Returns st1, w1)
    /\ @sub_agent_node Scripted.caps st1 "2" w1 = (Returns st2, w2)
    /\ route_after_agent st1 = "wait"
    /\ dict_get route_targets (route_after_agent st2) = Some "merger".
Proof.
  edestruct (@route_after_two_agents Scripted.caps Scripted.helpers
               (planned_state "t" ["a"; "b"]) "1" "2"
               (Scripted.world [Ok "r1"; Ok "r2"] []))
    as (Hwait & _ & _ & Hmerge);
    [ reflexivity | vm_compute; reflexivity | vm_compute; reflexivity | ].
  eexists _, _, _, _.
  split; [vm_compute; reflexivity|]. split; [vm_compute; reflexivity|].
  split; [exact Hwait | apply Hmerge; discriminate].
Defined.


(** X12, on the scripted agent "1" of the sequential graph. *)
Lemma context_is_transcript_of_results_witness :
  exists st' w',
    @sequential_agent_node Scripted.caps (planned_state "t" ["a"]) "1"
      (Scripted.world [Ok "r"] []) = (Returns st', w')
    /\ context st' = "" ++ render_results (sub_results st').
Proof.
  eexists _, _. split; [vm_compute; reflexivity|].
  eapply (@context_is_transcript_of_results Scripted.caps Scripted.helpers
            sequential_agent_node (planned_state "t" ["a"]) "1"
            (Scripted.world [Ok "r"] [])).
  - left. reflexivity.
  - vm_compute. reflexivity.
  - cbn. tauto.
  - reflexivity.
Defined.

(** X13, on the scripted agent "1" whose call raises. *)
Lemma agent_node_calls_model_at_most_once_witness :
  fst (@sub_agent_node Scripted.caps (planned_state "t" ["a"]) "1"
         (Scripted.world [Raise ModelError] [])) = Raises ModelError.
Proof.
  destruct (@agent_node_calls_model_at_most_once Scripted.caps Scripted.helpers
              sub_agent_node (planned_state "t" ["a"]) "1"
              (Scripted.world [Raise ModelError] []) is_sub_agent_node)
    as [[Hcalls _]|[(prompt & e & Hcalls & Hraise)|(prompt & reply & Hcalls & _)]].
  - vm_compute in Hcalls. discriminate Hcalls.
  - vm_compute in Hcalls. inversion Hcalls; subst e. exact Hraise.
  - vm_compute in Hcalls. discriminate Hcalls.
Defined.

(** ** Runs of the graphs *)
Section GraphRuns.
Context {caps : Capabilities} {helpers : Helpers}.

Lemma run_steps_from_S (g : StateGraph) (name : string) (n : nat)
      (st : AgentState) (w : World) :
  run_steps_from g name (S n) st w = advance g (run_steps_from g name n st w).
Proof. reflexivity. Qed.

Lemma iter_advance_terminal (g : StateGraph) (n : nat) (s : status) (w : World) :
  terminal s -> Nat.iter n (advance g) (s, w) = (s, w).
Proof.
  intros Hs. induction n as [|n IH]; [reflexivity|].
  cbn [Nat.iter nat_rect]. change (advance g (Nat.iter n (advance g) (s, w)) = (s, w)).
  rewrite IH. now apply advance_terminal.
Qed.

(** A node execution stops the run or moves along the node's edge. *)
Lemma advance_running (g : StateGraph) (name : string) (st : AgentState) (w : World) :
  terminal (fst (advance g (Running name st, w)))
  \/ exists next st' w',
      advance g (Running name st, w) = (Running next st', w')
      /\ dict_get (edges g) name = Some next
      /\ String.eqb next END = false.
Proof.
  unfold advance.
  destruct (dict_get (nodes g) name) as [fn|]; [|left; exact I].
  destruct (fn st w) as [[st'|e|i] w']; try (left; exact I).
  destruct (dict_get (edges g) name) as [next|]; [|left; exact I].
  destruct (String.eqb next END) eqn:Hend; [left; exact I|].
  right. now exists next, st', w'.
Qed.

Lemma hops_to_END_terminal (g : StateGraph) (fuel : nat) :
  forall (name : string) (k : nat) (st : AgentState) (w : World),
    hops_to_END g fuel name = Some k ->
    terminal (fst (run_steps_from g name k st w)).
Proof.
  unfold run_steps_from.
  induction fuel as [|fuel IH]; intros name k st w Hk; [discriminate|].
  cbn [hops_to_END] in Hk.
  destruct (advance_running g name st w) as [Hterm|(next & st' & w' & Hadv & Hedge & Hend)].
  - assert (Hpos : exists k', k = S k').
    { destruct (dict_get (edges g) name) as [next|]; [|inversion Hk; eauto].
      destruct (String.eqb next END); [inversion Hk; eauto|].
      destruct (hops_to_END g fuel next); inversion Hk; eauto. }
    destruct Hpos as [k' ->]. rewrite Nat.iter_succ_r.
    destruct (advance g (Running name st, w)) as [s w'].
    now rewrite iter_advance_terminal.
  - rewrite Hedge, Hend in Hk.
    destruct (hops_to_END g fuel next) as [k'|] eqn:Hnext; [|discriminate].
    inversion Hk; subst k. rewrite Nat.iter_succ_r, Hadv.
    now apply IH.
Qed.

Lemma hops_to_END_ends_within (g : StateGraph) (fuel k : nat) :
  hops_to_END g fuel (entry_point g) = Some k ->
  k <= recursion_limit ->
  ends_within g k.
Proof.
  intros Hk Hle st w.
  pose proof (hops_to_END_terminal g fuel _ k st w Hk) as Hterm.
  unfold run_steps_from in Hterm. fold (run_steps g k st w) in Hterm.
  split; [exact Hterm|].
  destruct (run_steps g k st w) as [s w'] eqn:Hrun.
  exact (invoke_terminal g st w k s w' Hrun Hterm Hle).
Qed.

(** X14.  The four sequential graphs of the source are chains from the
    entry point to END: whatever the state it is invoked on and whatever
    its nodes do, a run has stopped after 4 node executions in the
    sequential graph, 6 in the enhanced one, 7 in the compressed one and
    9 in the compressed enhanced one, and [graph.invoke] gives the
    configuration reached then; the recursion limit is never what ends
    it. *)
Theorem sequential_graphs_run_to_the_end :
  ends_within create_sequential_reliable_graph 4
  /\ ends_within create_sequential_reliable_enhanced_graph 6
  /\ ends_within create_sequential_compressed_graph 7
  /\ ends_within create_sequential_compressed_enhanced_graph 9.
Proof.
  repeat split;
    (eapply (hops_to_END_ends_within _ 25);
     [ reflexivity | unfold recursion_limit; lia ]).
Qed.

Lemma compressed_agent_node_eq (st : AgentState) (agent_id : string) (w : World) :
  compressed_agent_node st agent_id w =
  match subtask_of st agent_id with
  | Raise e => (Raises e, w)
  | Ok t =>
      match load_memory_variables t (ext w) with
      | (Raise e, x) => (Raises e, set_ext w x)
      | (Ok relevant, x) =>
          match llm_call (compressed_prompt agent_id (compressed_context st)
                                            relevant t) (set_ext w x) with
          | (Ok r, w1) => (Returns (set_sub_result st agent_id r), w1)
          | (Raise e, w1) => (Raises e, w1)
          end
      end
  end.
Proof.
  unfold compressed_agent_node, bind, pure, call, chain_run, ret.
  destruct (subtask_of st agent_id) as [t|e]; cbn [outcome_of]; [|reflexivity].
  destruct (load_memory_variables t (ext w)) as [[relevant|e] x];
    cbn [outcome_of]; [|reflexivity].
  rewrite (surjective_pairing (llm_call _ (set_ext w x))).
  destruct (llm_call _ (set_ext w x)) as [[r|e] w1]; cbn [outcome_of fst snd];
    [|reflexivity].
  destruct (subtask_of st agent_id); reflexivity.
Qed.

Lemma compressed_agent_1 (st : AgentState) (w : World) :
  advance create_sequential_compressed_graph (Running "agent_1" st, w)
  = continue_with (compressed_agent_node st "1" w) st (Running "compress_2").
Proof. reflexivity. Qed.

Lemma compressed_agent_2 (st : AgentState) (w : World) :
  advance create_sequential_compressed_graph (Running "agent_2" st, w)
  = continue_with (compressed_agent_node st "2" w) st (Running "compress_final").
Proof. reflexivity. Qed.

Lemma compressed_merger (st : AgentState) (w : World) :
  terminal (fst (advance create_sequential_compressed_graph (Running "merger" st, w))).
Proof.
  change (advance create_sequential_compressed_graph (Running "merger" st, w))
    with (continue_with (merge_compressed_node st w) st Done).
  unfold continue_with. now destruct (merge_compressed_node st w) as [[?|?|?] ?].
Qed.

Lemma calls_since_set_ext (w0 w : World) (calls : list LlmCall) (x : Ext) :
  calls_since w0 w calls -> calls_since w0 (set_ext w x) calls.
Proof. exact (fun H => H). Qed.

(** A compression step of the compressed graph, from a state whose
    context is that of [st0]. *)
Lemma compressed_compress_step
      (st0 : AgentState) (w0 : World) (n : nat) (next : string)
      (st : AgentState) (w : World) (calls : list LlmCall) :
  nth_error compressed_path (S (S n)) = Some next ->
  context st = context st0 ->
  subtasks st = subtasks st0 ->
  calls_since w0 w calls ->
  (forall c, compressed_progress st0 (S n) (set_compressed_context st c)
               (calls ++ [compress_call (context st0) (Ok c)])) ->
  compressed_at st0 w0 (S n)
    (continue_with (compress_context_node st w) st (Running next)).
Proof.
  intros Hnext Hctx Hsub Hcalls Hprog.
  rewrite compress_context_node_eq, Hctx.
  pose proof (calls_since_llm_call w0 w calls (compress_prompt (context st0)) Hcalls)
    as Hlog.
  destruct (llm_call (compress_prompt (context st0)) w) as [[c|e] w1];
    cbn [fst snd] in Hlog; [|apply cmp_stopped; exact I].
  destruct (save_context (context st0) c (ext w1)) as [[[]|e] x];
    [|apply cmp_stopped; exact I].
  cbn [continue_with].
  eapply cmp_running; [exact Hnext|exact Hctx|exact Hsub| |apply Hprog].
  apply calls_since_set_ext. exact Hlog.
Qed.

(** An agent step of the compressed graph. *)
Lemma compressed_agent_step
      (st0 : AgentState) (w0 : World) (n : nat) (next agent_id : string)
      (st : AgentState) (w : World) (calls : list LlmCall) :
  nth_error compressed_path (S (S n)) = Some next ->
  context st = context st0 ->
  subtasks st = subtasks st0 ->
  calls_since w0 w calls ->
  (forall t relevant r,
      subtask_of st0 agent_id = Ok t ->
      compressed_progress st0 (S n) (set_sub_result st agent_id r)
        (calls ++ [compressed_agent_call agent_id (compressed_context st)
                                         relevant t (Ok r)])) ->
  compressed_at st0 w0 (S n)
    (continue_with (compressed_agent_node st agent_id w) st (Running next)).
Proof.
  intros Hnext Hctx Hsub Hcalls Hprog.
  rewrite compressed_agent_node_eq, (subtask_of_subtasks st st0 agent_id Hsub).
  destruct (subtask_of st0 agent_id) as [t|e] eqn:Hread;
    [|apply cmp_stopped; exact I].
  destruct (load_memory_variables t (ext w)) as [[relevant|e] x];
    [|apply cmp_stopped; exact I].
  pose proof (calls_since_llm_call w0 (set_ext w x) calls
                (compressed_prompt agent_id (compressed_context st) relevant t)
                (calls_since_set_ext w0 w calls x Hcalls)) as Hlog.
  destruct (llm_call (compressed_prompt agent_id (compressed_context st) relevant t)
                     (set_ext w x)) as [[r|e] w1];
    cbn [fst snd] in Hlog; [|apply cmp_stopped; exact I].
  cbn [continue_with].
  eapply cmp_running; [exact Hnext|exact Hctx|exact Hsub|exact Hlog|].
  now apply Hprog.
Qed.

(** Every configuration of the compressed graph from [compress_1] on has
    one of the shapes of [compressed_at]. *)
Lemma compressed_run (st0 : AgentState) (w0 : World) (n : nat) :
  compressed_at st0 w0 n
    (run_steps_from create_sequential_compressed_graph "compress_1" n st0 w0).
Proof.
  induction n as [|n IH].
  - eapply cmp_running; try reflexivity.
    + unfold calls_since. now rewrite app_nil_r.
    + now constructor.
  - rewrite run_steps_from_S. revert IH.
    generalize (run_steps_from create_sequential_compressed_graph "compress_1" n st0 w0).
    intros c IH.
    destruct IH as [n name st w calls Hname Hctx Hsub Hcalls Hprog | n s w Hs];
      [|rewrite advance_terminal by exact Hs; now apply cmp_stopped].
    destruct Hprog as
        [ st Hres Hcmp
        | st c1 Hres Hcmp
        | st c1 rel1 t1 r1 Ht1 Hres Hcmp
        | st c1 rel1 t1 r1 c2 Ht1 Hres Hcmp
        | st c1 rel1 t1 r1 c2 rel2 t2 r2 Ht1 Ht2 Hres Hcmp
        | st c1 rel1 t1 r1 c2 rel2 t2 r2 c3 Ht1 Ht2 Hres Hcmp ];
      cbn in Hname; inversion Hname; subst name.
    + rewrite compressed_compress_1.
      eapply compressed_compress_step; try eassumption; [reflexivity|].
      intros c. now constructor.
    + rewrite compressed_agent_1.
      eapply compressed_agent_step; try eassumption; [reflexivity|].
      intros t relevant r Ht. rewrite Hcmp.
      now apply progress_compress_2; cbn; [|rewrite Hres|].
    + rewrite compressed_compress_2.
      eapply compressed_compress_step; try eassumption; [reflexivity|].
      intros c. now apply progress_agent_2.
    + rewrite compressed_agent_2.
      eapply compressed_agent_step; try eassumption; [reflexivity|].
      intros t relevant r Ht. rewrite Hcmp.
      now apply progress_compress_final; cbn; [| |rewrite Hres|].
    + rewrite compressed_compress_final.
      eapply compressed_compress_step; try eassumption; [reflexivity|].
      intros c. now apply progress_merger.
    + pose proof (compressed_merger st w) as Hterm.
      destruct (advance create_sequential_compressed_graph (Running "merger" st, w))
        as [s w'].
      now apply cmp_stopped.
Qed.

(** X15.  In the compressed graph no agent's result ever reaches the
    compressor.  From [compress_1] on, whatever state the task breaker
    left, the context and the subtasks stay as they were; so each of the
    three compressions is a call on the same prompt, that of the context
    left by the task breaker, while the prompt of each agent holds the
    reply of the compression just before it, and the agents write under
    "1" and "2".  The log of the calls made and the state reached after
    every number of node executions are those of [compressed_progress]. *)
Theorem compressed_graph_compresses_same_context
        (st0 : AgentState) (w0 : World) (n : nat)
        (name : string) (st : AgentState) (w : World) :
  run_steps_from create_sequential_compressed_graph "compress_1" n st0 w0
  = (Running name st, w) ->
  context st = context st0
  /\ subtasks st = subtasks st0
  /\ nth_error compressed_path (S n) = Some name
  /\ exists calls,
      llm_calls w = (llm_calls w0 ++ calls)%list
      /\ compressed_progress st0 n st calls.
Proof.
  intros Hrun. pose proof (compressed_run st0 w0 n) as Hat.
  rewrite Hrun in Hat. clear Hrun.
  remember (Running name st, w) as c eqn:Hc.
  destruct Hat as [n name' st' w' calls Hname Hctx Hsub Hcalls Hprog | n s w' Hs].
  - inversion Hc; subst. repeat split; try assumption.
    exists calls. split; assumption.
  - inversion Hc; subst. destruct Hs.
Qed.

End GraphRuns.

(** X15, on a scripted run: the five calls of a run that reaches the
    merger, every compression being of the empty context. *)
Lemma compressed_graph_compresses_same_context_witness :
  exists st w,
    run_steps_from (@create_sequential_compressed_graph Scripted.caps Scripted.helpers)
      "compress_1" 5 (planned_state "t" ["a"; "b"])
      (Scripted.world [Ok "c1"; Ok "r1"; Ok "c2"; Ok "r2"; Ok "c3"] [])
    = (Running "merger" st, w)
    /\ context st = "".
Proof.
  edestruct (@compressed_graph_compresses_same_context Scripted.caps Scripted.helpers
               (planned_state "t" ["a"; "b"])
               (Scripted.world [Ok "c1"; Ok "r1"; Ok "c2"; Ok "r2"; Ok "c3"] [])
               5 "merger")
    as (Hctx & _); [ vm_compute; reflexivity | ].
  eexists _, _. split; [vm_compute; reflexivity | exact Hctx].
Defined.
